(** * generate_idot.py: well addressing, reaction expansion and dispense planning

    A shallow embedding of the planning core of [src/generate_idot.py]
    (well helpers, reaction builders and [build_dispense_rows]) together
    with the properties stated about it.

    Conventions of the embedding:
    - Python [str] is [string] (ASCII range), [int] is [Z] where the value is
      an input and [nat] where it is a length or a counter that starts at 0;
    - Python [float] is an IEEE-754 binary64 value, [spec_float] of the
      standard library with [prec = 53] and [emax = 1024]; the volumes are
      floats, as the signature of [build_dispense_rows] declares them and
      as [main] passes them;
    - a raised exception is the left injection of a sum, with one [message]
      constructor per [raise] site of the program;
    - [dict] is [gmap], [set] is [gset];
    - the local variables [well_usage] and [rows] of [build_dispense_rows],
      which the closure [pick_source_well] and the loops mutate, are the
      state of a small state-and-exception monad. *)

From Stdlib Require Import ZArith String Ascii DecimalString.
From Stdlib Require Import Floats.SpecFloat.
From Stdlib Require DecimalZ.
From stdpp Require Import gmap strings list fin_maps sorting.

Open Scope string_scope.
Open Scope Z_scope.
Open Scope list_scope.

(** ** Exceptions *)

Abbreviation float := spec_float.

(** One constructor per message the program (or a builtin it calls) raises
    with; the fields are the values the message is formatted from. *)
Inductive message :=
  | NeedTargetWells (count : Z) (plate : nat)
      (* "Need {count} target wells but a 96-well plate only has {len(wells)}." *)
  | NoPartGroups
      (* "No part groups provided for combinatorial mode." *)
  | NoReactionsFound
      (* "No reactions found in manual specification." *)
  | PartsNotOnSourcePlate (missing : list string)
      (* "These parts are listed ... Source Plate:\n  " + ", ".join(missing) *)
  | VolumeExceeded (target : string) (n_parts : nat)
                   (dispense_vol parts_vol total_vol : float)
      (* "Reaction in {target} has {n_parts} parts x {dispense_vol} uL
          = {n_parts * dispense_vol} uL, exceeding total volume {total_vol} uL." *)
  | InvalidIntLiteral (s : string)      (* int(): invalid literal *)
  | ExceedsMaxStrDigits (limit digits : Z)
      (* int(): "Exceeds the limit ({limit} digits) for integer string
         conversion: value has {digits} digits; ..." *)
  | SubstringNotFound                   (* str.index(): substring not found *)
  | MinOfEmptySequence.                 (* min(): empty sequence *)

Inductive exn :=
  | ValueError (msg : message)
  | KeyError (key : string)
  | IndexError.

Abbreviation result A := (exn + A)%type.

Definition raise {A} (e : exn) : result A := inl e.
Definition ok {A} (a : A) : result A := inr a.

Definition rbind {A B} (r : result A) (k : A → result B) : result B :=
  match r with
  | inl e => inl e
  | inr a => k a
  end.

(** ** Builtins of the language used by the program *)

Module Py.

(** [s.upper()] on one ASCII character. *)
Definition upper (c : ascii) : ascii :=
  let n := nat_of_ascii c in
  if (97 <=? n)%nat && (n <=? 122)%nat then ascii_of_nat (n - 32) else c.

(** [str(n)] for an integer. *)
Definition str_of_int (n : Z) : string := NilZero.string_of_int (Z.to_int n).

(** White space stripped by [str.strip()]. *)
Definition is_space (c : ascii) : bool :=
  let n := nat_of_ascii c in
  ((9 <=? n)%nat && (n <=? 13)%nat) || ((28 <=? n)%nat && (n <=? 32)%nat).

Fixpoint lstrip (s : string) : string :=
  match s with
  | String c s' => if is_space c then lstrip s' else s
  | EmptyString => EmptyString
  end.

Definition strip (s : string) : string :=
  String.rev (lstrip (String.rev (lstrip s))).

(** White space skipped by [int()] around the literal: tab to carriage
    return and the space, but not the separators 28..31 that [str.strip()]
    removes. *)
Definition is_int_space (c : ascii) : bool :=
  let n := nat_of_ascii c in
  ((9 <=? n)%nat && (n <=? 13)%nat) || (n =? 32)%nat.

Fixpoint skip_int_space (s : string) : string :=
  match s with
  | String c s' => if is_int_space c then skip_int_space s' else s
  | EmptyString => EmptyString
  end.

(** [sys.get_int_max_str_digits()]: the program leaves it at its default. *)
Definition int_max_str_digits : Z := 4300.

(** The run of digits and underscores at the head of [s]: its value
    continuing from [acc], its number of digits continuing from [n], and
    what follows the run.  There is no result when two underscores meet or
    the run ends with one. *)
Fixpoint digits (s : string) (acc n : Z) (after_underscore : bool)
    : option (Z * Z * string) :=
  match s with
  | EmptyString => if after_underscore then None else Some (acc, n, s)
  | String c s' =>
      match Ascii.is_nat c with
      | Some d => digits s' (10 * acc + Z.of_nat d) (n + 1) false
      | None =>
          if after_underscore then None
          else if bool_decide (c = "_"%char) then digits s' acc n true
          else Some (acc, n, s)
      end
  end.

(** What [int(s)] makes of the run of digits it scanned.  A run of more
    digits than the limit is refused before anything after it is looked
    at; otherwise the run must have a digit, and only white space may
    follow it. *)
Definition int_run (s : string) (negative : bool)
    (run : option (Z * Z * string)) : result Z :=
  match run with
  | None => raise (ValueError (InvalidIntLiteral s))
  | Some (z, n, rest) =>
      if int_max_str_digits <? n
      then raise (ValueError (ExceedsMaxStrDigits int_max_str_digits n))
      else if n =? 0 then raise (ValueError (InvalidIntLiteral s))
      else match skip_int_space rest with
           | EmptyString => ok (if negative then - z else z)
           | String _ _ => raise (ValueError (InvalidIntLiteral s))
           end
  end.

(** [int(s)] for a string, in the order of the interpreter: white space is
    skipped, then an optional sign; the literal may not start with an
    underscore; then the run of digits is scanned. *)
Definition int (s : string) : result Z :=
  let signed :=
    match skip_int_space s with
    | String "-" s' => (true, s')
    | String "+" s' => (false, s')
    | s' => (false, s')
    end in
  match signed.2 with
  | String "_" _ => raise (ValueError (InvalidIntLiteral s))
  | literal => int_run s signed.1 (digits literal 0 0 false)
  end.

(** [s.index(c)] for a one-character needle: position of the first
    occurrence, [ValueError] when there is none. *)
Fixpoint index (s : string) (c : ascii) : result nat :=
  match s with
  | EmptyString => raise (ValueError SubstringNotFound)
  | String c' s' =>
      if bool_decide (c' = c) then ok 0%nat
      else rbind (index s' c) (λ i, ok (S i))
  end.

(** [l[:n]]: a negative bound counts from the end. *)
Definition slice_to {A} (l : list A) (n : Z) : list A :=
  if 0 <=? n then take (Z.to_nat n) l
  else take (Z.to_nat (Z.of_nat (length l) + n)) l.

(** [min(l, key=key)]: the first element whose key is smallest. *)
Definition min_by {A} (key : A → nat) (l : list A) : result A :=
  match l with
  | [] => raise (ValueError MinOfEmptySequence)
  | x :: l' =>
      ok (foldl (λ best y, if (key y <? key best)%nat then y else best) x l')
  end.

(** [sorted(l, key=key)]: every key is computed first (any exception
    propagates), then the list is sorted stably, ascending in the key. *)
Section sorted.
Context {A K : Type} (key : A → result K) (le : K → K → bool).

Fixpoint keys (l : list A) : result (list (K * A)) :=
  match l with
  | [] => ok []
  | x :: l' =>
      rbind (key x) (λ k, rbind (keys l') (λ kl, ok ((k, x) :: kl)))
  end.

Fixpoint insert_sorted (p : K * A) (l : list (K * A)) : list (K * A) :=
  match l with
  | [] => [p]
  | q :: l' => if le p.1 q.1 then p :: q :: l' else q :: insert_sorted p l'
  end.

Definition sorted_by (l : list A) : result (list A) :=
  rbind (keys l) (λ kl, ok (snd <$> foldr insert_sorted [] kl)).
End sorted.

(** [itertools.product] applied to the pools, as its documentation defines
    it: starting from the empty tuple, the partial tuples are extended pool
    by pool, each by every element of the next pool. *)
Definition product {A} (pools : list (list A)) : list (list A) :=
  foldl (λ res pool, x ← res; y ← pool; [x ++ [y]]) [[]] pools.

(** Tuples [(a, b)] of integers compare lexicographically. *)
Definition tuple_le (p q : Z * nat) : bool :=
  (p.1 <? q.1) || ((p.1 =? q.1) && (p.2 <=? q.2)%nat).

End Py.

(** ** Floating-point numbers

    [float] values are binary64: every operation below rounds to nearest,
    ties to even, as the hardware does. *)

Module Float.

Definition prec : Z := 53.
Definition emax : Z := 1024.

Definition zero : float := S754_zero false.

(** An integer operand of a mixed [int]/[float] operation is converted to
    the nearest [float] (the integers converted here are lengths of lists,
    far below the range where the conversion overflows). *)
Definition of_int (z : Z) : float := binary_normalize prec emax z 0 false.

(** [m * 2 ^ e] as a [float]; used to write literals such as [0.5]. *)
Definition of_binary (m e : Z) : float := binary_normalize prec emax m e false.

Definition mul : float → float → float := SFmul prec emax.
Definition sub : float → float → float := SFsub prec emax.
Definition ltb : float → float → bool := SFltb.

(** Nearest integer to [a / b] for [0 < b], ties to the even one. *)
Definition div_half_even (a b : Z) : Z :=
  let q := a / b in
  match 2 * (a mod b) ?= b with
  | Lt => q
  | Eq => if Z.even q then q else q + 1
  | Gt => q + 1
  end.

(** [round(x, ndigits)] for [0 <= ndigits], as the interpreter computes it:
    infinities, NaN and zeros round to themselves; otherwise the exact
    binary value of [x] is rounded to [ndigits] decimals, ties to even (the
    correctly rounded decimal string of [x]), and that decimal
    [t / 10 ^ ndigits] is converted back to the nearest [float] (the
    correctly rounded parse of the string), keeping the sign. *)
Definition round (x : float) (ndigits : Z) : float :=
  match x with
  | S754_finite s m e =>
      let scale := 10 ^ ndigits in
      let t := if 0 <=? e then Z.pos m * 2 ^ e * scale
               else div_half_even (Z.pos m * scale) (2 ^ (- e)) in
      match t, scale with
      | Z.pos p, Z.pos q =>
          SFdiv prec emax (S754_finite s p 0) (S754_finite false q 0)
      | _, _ => S754_zero s
      end
  | _ => x
  end.

End Float.

(** ** Well helpers *)

Definition ROWS_96 : string := "ABCDEFGH".
Definition COLS_96 : list Z := seqZ 1 12.          (* range(1, 13) *)

Definition well_sort_key (well : string) : result (Z * nat) :=
  match well with
  | EmptyString => raise IndexError                   (* well[0] *)
  | String c rest =>
      let row := Py.upper c in
      rbind (Py.int rest) (λ col,
      rbind (Py.index ROWS_96 row) (λ i, ok (col, i)))
  end.

(** The comprehension [[f"{r}{c}" for c in COLS_96 for r in ROWS_96]]. *)
Definition all_wells : list string :=
  c ← COLS_96; r ← list_ascii_of_string ROWS_96; [String r (Py.str_of_int c)].

Definition generate_target_wells (count : Z) : result (list string) :=
  let wells := all_wells in
  if Z.of_nat (length wells) <? count
  then raise (ValueError (NeedTargetWells count (length wells)))
  else ok (Py.slice_to wells count).

(** ** Reaction builders *)

(** A reaction is [(target_well, [part_names])]. *)
Abbreviation reaction := (string * list string)%type.

Definition build_combinatorial_reactions
    (common_parts : list string) (groups : list (list string))
    : result (list reaction) :=
  match groups with
  | [] => raise (ValueError NoPartGroups)
  | _ :: _ =>
      let combos := Py.product groups in
      rbind (generate_target_wells (Z.of_nat (length combos))) (λ targets,
      ok (zip_with (λ target combo, (target, combo ++ common_parts))
                   targets combos))
  end.

Definition build_manual_reactions (manual_rows : list reaction)
    : result (list reaction) :=
  match manual_rows with
  | [] => raise (ValueError NoReactionsFound)
  | _ :: _ => ok manual_rows
  end.

(** ** Dispensing logic *)

(** A dispense row is [(source_well, target_well, volume_uL, liquid_name)]. *)
Abbreviation row := (string * string * float * string)%type.

(** Storage of the two local variables of [build_dispense_rows] that are
    mutated while it runs.  It is threaded through every statement, and
    through successive calls, so that a dependence of a call on what an
    earlier one left behind would be visible. *)
Record locals := Locals {
  well_usage : gmap string nat;
  rows : list row
}.

Definition M (A : Type) : Type := locals → result (A * locals).

Definition ret {A} (a : A) : M A := λ st, ok (a, st).

Definition bind {A B} (m : M A) (k : A → M B) : M B :=
  λ st, match m st with
        | inl e => inl e
        | inr (a, st') => k a st'
        end.

Definition throw {A} (e : exn) : M A := λ _, raise e.

Definition lift {A} (r : result A) : M A :=
  λ st, match r with inl e => inl e | inr a => ok (a, st) end.

Declare Scope plan_scope.
Delimit Scope plan_scope with plan.
Notation "x <- m ;; k" := (bind m (λ x, k))
  (at level 100, m at next level, right associativity) : plan_scope.
Notation "m ;; k" := (bind m (λ _, k))
  (at level 100, right associativity) : plan_scope.
Open Scope plan_scope.

Definition get_well_usage : M (gmap string nat) := λ st, ok (well_usage st, st).
Definition set_well_usage (u : gmap string nat) : M unit :=
  λ st, ok (tt, Locals u (rows st)).
Definition set_rows (rs : list row) : M unit :=
  λ st, ok (tt, Locals (well_usage st) rs).
Definition get_rows : M (list row) := λ st, ok (rows st, st).

(** [rows.append(r)] *)
Definition rows_append (r : row) : M unit :=
  λ st, ok (tt, Locals (well_usage st) (rows st ++ [r])).

(** [for x in l: body(x)] *)
Fixpoint for_each {A} (l : list A) (body : A → M unit) : M unit :=
  match l with
  | [] => ret tt
  | x :: l' => body x ;; for_each l' body
  end.

(** [well_usage.get(w, 0)] *)
Definition usage_get (u : gmap string nat) (w : string) : nat :=
  default 0%nat (u !! w).

Section planner.
Context (reagent_to_wells : gmap string (list string)).
Context (total_vol dispense_vol : float) (mm_well mm_name : string).

Definition pick_source_well (reagent : string) : M string :=
  wells <- lift (match reagent_to_wells !! reagent with
                 | Some wells => ok wells
                 | None => raise (KeyError reagent)
                 end) ;;
  usage <- get_well_usage ;;
  best <- lift (Py.min_by (usage_get usage) wells) ;;
  set_well_usage (<[best := (usage_get usage best + 1)%nat]> usage) ;;
  ret best.

(** [mm_vol = round(total_vol - n_parts * dispense_vol, 4)] *)
Definition mm_vol (n_parts : nat) : float :=
  Float.round
    (Float.sub total_vol
       (Float.mul (Float.of_int (Z.of_nat n_parts)) dispense_vol)) 4.

(** Body of the loop over the reactions. *)
Definition dispense_reaction (r : reaction) : M unit :=
  let '(target, parts) := r in
  let n_parts := length parts in
  if Float.ltb (mm_vol n_parts) (Float.of_int 0)
  then throw (ValueError
         (VolumeExceeded target n_parts dispense_vol
            (Float.mul (Float.of_int (Z.of_nat n_parts)) dispense_vol)
            total_vol))
  else
    for_each parts (λ part,
      src <- pick_source_well part ;;
      rows_append (src, target, dispense_vol, part)) ;;
    if Float.ltb (Float.of_int 0) (mm_vol n_parts)
    then rows_append (mm_well, target, mm_vol n_parts, mm_name)
    else ret tt.

(** The parts named by the reactions: [all_parts.update(parts)] for each. *)
Definition all_parts (reactions : list reaction) : gset string :=
  foldl (λ acc r, acc ∪ list_to_set r.2) ∅ reactions.

Definition build_dispense_rows (reactions : list reaction) : M (list row) :=
  let missing := all_parts reactions ∖ dom reagent_to_wells in
  if decide (missing = ∅) then
    set_well_usage ∅ ;;
    set_rows [] ;;
    for_each reactions dispense_reaction ;;
    get_rows
  else
    throw (ValueError
      (PartsNotOnSourcePlate (merge_sort String.le (elements missing)))).
End planner.

(** A call of a function whose locals live in [frame]; only the returned
    value (or the exception) is observed by the caller. *)
Definition call {A} (m : M A) (frame : locals) : result A :=
  match m frame with
  | inl e => inl e
  | inr (a, _) => ok a
  end.

(** ** Cell parsing helper and Excel readers *)

(** [s.upper()] and [s.lower()] on ASCII strings. *)
Module Str.

Fixpoint upper (s : string) : string :=
  match s with
  | EmptyString => EmptyString
  | String c s' => String (Py.upper c) (upper s')
  end.

Definition lower_char (c : ascii) : ascii :=
  let n := nat_of_ascii c in
  if (65 <=? n)%nat && (n <=? 90)%nat then ascii_of_nat (n + 32) else c.

Fixpoint lower (s : string) : string :=
  match s with
  | EmptyString => EmptyString
  | String c s' => String (lower_char c) (lower s')
  end.

End Str.

(** A worksheet as the program reads it: what each of the four [iter_rows]
    calls of the readers yields, as cell values.  The spreadsheet library
    decides what these are for a given file; the readers are modelled on
    what they receive. *)
Record worksheet (cell : Type) := Worksheet {
  (* ws.iter_rows(min_row=1, max_row=1), the [.value] of each cell *)
  header_rows : list (list cell);
  (* ws.iter_rows(min_row=2, values_only=True) *)
  body_rows : list (list cell);
  (* ws.iter_rows(min_row=2, max_col=2, values_only=True) *)
  body_pairs : list (cell * cell);
  (* col_idx |-> the [row[0]] of ws.iter_rows(min_row=2, min_col=col_idx + 1,
     max_col=col_idx + 1, values_only=True) *)
  body_column : nat → list cell
}.
Arguments Worksheet {cell} _ _ _ _.
Arguments header_rows {cell} _.
Arguments body_rows {cell} _.
Arguments body_pairs {cell} _.
Arguments body_column {cell} _ _.

(** Text with which the program exits. *)
Inductive exit_message :=
  | ExitText (text : string)         (* sys.exit("...") *)
  | ExitError (msg : message).       (* sys.exit(f"Error: {e}") *)

(** The exceptions outside the planning core: those of the core, the end of
    an iterator under [next], and [sys.exit]. *)
Inductive exception :=
  | Exn (e : exn)
  | StopIteration
  | SystemExit (msg : exit_message).

Section readers.
Context {cell : Type}.
(** [val is None] and [str(val)] for the value of a cell, whatever its
    type (text, number, date, ...). *)
Context (is_None : cell → bool) (py_str : cell → string).

Definition _cell_to_str (val : cell) : string :=
  if is_None val then "" else Py.strip (py_str val).

Definition read_settings (ws : worksheet cell) : gmap string cell :=
  foldl (λ settings '(key, val),
           if is_None key then settings
           else <[_cell_to_str key := val]> settings)
        ∅ (body_pairs ws).

Definition read_source_plate (ws : worksheet cell)
    : gmap string (list string) :=
  foldl (λ reagent_to_well '(well, reagent),
           let w := Str.upper (_cell_to_str well) in
           let r := _cell_to_str reagent in
           if bool_decide (w = "") || bool_decide (r = "")
           then reagent_to_well
           else (* reagent_to_well.setdefault(r, []).append(w) *)
             <[r := default [] (reagent_to_well !! r) ++ [w]]> reagent_to_well)
        ∅ (body_pairs ws).

(** The non-empty texts of the cells of one column below the header. *)
Definition column_values (ws : worksheet cell) (col_idx : nat) : list string :=
  filter (λ s, s ≠ "") (_cell_to_str <$> body_column ws col_idx).

Definition read_combinatorial (ws : worksheet cell)
    : exception + (list string * list (list string)) :=
  match header_rows ws with
  | [] => inl StopIteration                               (* next(...) *)
  | first :: _ =>
      let headers := _cell_to_str <$> first in
      inr (foldl (λ '(common_parts, groups) '(col_idx, header),
                    if bool_decide (header = "") then (common_parts, groups)
                    else
                      let col_values := column_values ws col_idx in
                      if bool_decide (Str.lower header = "common")
                      then (col_values, groups)
                      else if bool_decide (col_values = [])
                           then (common_parts, groups)
                           else (common_parts, groups ++ [col_values]))
                 ([], []) (imap pair headers))
  end.

Definition read_manual_rows (ws : worksheet cell) : result (list reaction) :=
  foldl (λ acc row,
           rbind acc (λ reactions,
           match row with
           | [] => raise IndexError                           (* vals[0] *)
           | val0 :: vals =>
               let target := Str.upper (_cell_to_str val0) in
               if bool_decide (target = "") then ok reactions
               else
                 let parts := filter (λ s, s ≠ "") (_cell_to_str <$> vals) in
                 if bool_decide (parts = []) then ok reactions
                 else ok (reactions ++ [(target, parts)])
           end))
        (ok []) (body_rows ws).

Definition read_manual_columns (ws : worksheet cell)
    : exception + list reaction :=
  match header_rows ws with
  | [] => inl StopIteration                               (* next(...) *)
  | first :: _ =>
      let headers := (λ c, Str.upper (_cell_to_str c)) <$> first in
      inr (foldl (λ reactions '(col_idx, well),
                    if bool_decide (well = "") then reactions
                    else
                      let parts := column_values ws col_idx in
                      if bool_decide (parts = []) then reactions
                      else reactions ++ [(well, parts)])
                 [] (imap pair headers))
  end.
End readers.

(** ** The planning step of main *)

(** A workbook: its sheets by title, in their order. *)
Abbreviation workbook cell := (list (string * worksheet cell)).

(** [wb.sheetnames] *)
Definition sheetnames {cell} (wb : workbook cell) : list string := fst <$> wb.

(** [wb[name]]: the sheet of that title, KeyError when there is none. *)
Fixpoint get_sheet {cell} (wb : workbook cell) (name : string)
    : exception + worksheet cell :=
  match wb with
  | [] => inl (Exn (KeyError name))
  | (title, ws) :: wb' =>
      if bool_decide (title = name) then inr ws else get_sheet wb' name
  end.

Definition ebind {A B} (r : exception + A) (k : A → exception + B)
    : exception + B :=
  match r with
  | inl e => inl e
  | inr a => k a
  end.

(** An exception of the core raised inside the wider code. *)
Definition core {A} (r : result A) : exception + A :=
  match r with
  | inl e => inl (Exn e)
  | inr a => inr a
  end.

(** [try: body except ValueError as e: sys.exit(f"Error: {e}")] *)
Definition exit_on_ValueError {A} (body : exception + A) : exception + A :=
  match body with
  | inl (Exn (ValueError msg)) => inl (SystemExit (ExitError msg))
  | _ => body
  end.

Section main.
Context {cell : Type} (is_None : cell → bool) (py_str : cell → string).

(** The [if mode == ...] cascade of [main]: the reactions of the workbook
    for the given mode. *)
Definition main_reactions (mode : string) (wb : workbook cell)
    : exception + list reaction :=
  if bool_decide (mode = "combinatorial") then
    if bool_decide ("Combinatorial" ∈ sheetnames wb) then
      ebind (get_sheet wb "Combinatorial") (λ ws,
      ebind (read_combinatorial is_None py_str ws) (λ '(common_parts, groups),
      core (build_combinatorial_reactions common_parts groups)))
    else inl (SystemExit (ExitText
      "Error: mode is 'combinatorial' but no 'Combinatorial' sheet found."))
  else if bool_decide (mode = "manual_columns") then
    if bool_decide ("Manual Columns" ∈ sheetnames wb) then
      ebind (get_sheet wb "Manual Columns") (λ ws,
      ebind (read_manual_columns is_None py_str ws) (λ manual,
      core (build_manual_reactions manual)))
    else inl (SystemExit (ExitText
      "Error: mode is 'manual_columns' but no 'Manual Columns' sheet found."))
  else if bool_decide (mode = "manual_rows") then
    if bool_decide ("Manual" ∈ sheetnames wb) then
      ebind (get_sheet wb "Manual Rows") (λ ws,
      ebind (core (read_manual_rows is_None py_str ws)) (λ manual,
      core (build_manual_reactions manual)))
    else inl (SystemExit (ExitText
      "Error: mode is 'manual_rows' but no 'Manual Rows' sheet found."))
  else inl (SystemExit (ExitText
    ("Error: unknown mode '" +:+ mode +:+
     "'. Use 'combinatorial', 'manual_rows', or 'manual_columns'."))).

(** The [try] block of [main]: the reactions, then the dispense rows; a
    ValueError raised in it ends the program with its message. *)
Definition main_plan (mode : string) (wb : workbook cell)
    (reagent_to_wells : gmap string (list string))
    (total_vol dispense_vol : float) (mm_well mm_name : string)
    : exception + (list reaction * list row) :=
  exit_on_ValueError
    (ebind (main_reactions mode wb) (λ reactions,
     ebind (core (call (build_dispense_rows reagent_to_wells total_vol
                          dispense_vol mm_well mm_name reactions)
                       (Locals ∅ []))) (λ dispense_rows,
     inr (reactions, dispense_rows)))).
End main.

(** ** Summary *)

(** [x + y] on floats. *)
Definition float_add : float → float → float := SFadd Float.prec Float.emax.

(** A [dict] whose order of insertion matters, as the list of its items:
    [d.get(k)] and [d[k] = v] (a key already present keeps its place). *)
Fixpoint dict_get {V} (d : list (string * V)) (k : string) : option V :=
  match d with
  | [] => None
  | (k', v) :: d' => if bool_decide (k' = k) then Some v else dict_get d' k
  end.

Fixpoint dict_set {V} (d : list (string * V)) (k : string) (v : V)
    : list (string * V) :=
  match d with
  | [] => [(k, v)]
  | (k', v') :: d' =>
      if bool_decide (k' = k) then (k, v) :: d' else (k', v') :: dict_set d' k v
  end.

(** [d[k]], KeyError when the key is absent. *)
Definition dict_item {V} (d : list (string * V)) (k : string) : result V :=
  match dict_get d k with
  | Some v => ok v
  | None => raise (KeyError k)
  end.

(** [[f(x) for x in l]] for an [f] that may raise. *)
Fixpoint for_list {A B} (f : A → result B) (l : list A) : result (list B) :=
  match l with
  | [] => ok []
  | x :: l' => rbind (f x) (λ y, rbind (for_list f l') (λ ys, ok (y :: ys)))
  end.

(** What [print_summary] reports, on the console and in the summary file:
    the values, before they are formatted. *)
Record summary := Summary {
  total_reactions : nat;
  parts_per_reaction : nat;
  mastermix_per_rxn : float;
  target_range : string * string;                (* first .. last *)
  source_table : list (string * string * float)  (* well, reagent, volume *)
}.

(** The values are computed in the order of the source, so that the first
    exception raised is the one the program stops with; the lines printed
    before it are not modelled.  With no reaction [mm_vol] is the integer 0,
    here the float zero: the run then stops at [target_wells[0]] before the
    value is used in the summary file. *)
Definition print_summary (reactions : list reaction)
    (dispense_rows : list row) (total_vol dispense_vol : float)
    : result summary :=
  let '(vol_per_source, name_for_source) :=
    foldl (λ '(vols, names) '(src, _, vol, name),
             (dict_set vols src
                (float_add (default (Float.of_int 0) (dict_get vols src)) vol),
              dict_set names src name))
          ([], []) dispense_rows in
  let n_parts := match reactions with r :: _ => length r.2 | [] => 0%nat end in
  let mm := match reactions with
            | _ :: _ => mm_vol total_vol dispense_vol n_parts
            | [] => Float.of_int 0
            end in
  rbind (Py.sorted_by well_sort_key Py.tuple_le (fst <$> reactions))
    (λ target_wells,
  match target_wells with
  | [] => raise IndexError                              (* target_wells[0] *)
  | first :: _ =>
      let range := (first, default first (last target_wells)) in
      rbind (Py.sorted_by well_sort_key Py.tuple_le (fst <$> vol_per_source))
        (λ wells,
      rbind (for_list (λ well,
               rbind (dict_item name_for_source well) (λ name,
               rbind (dict_item vol_per_source well) (λ vol,
               ok (well, name, Float.round vol 2)))) wells) (λ table,
      ok (Summary (length reactions) n_parts mm range table)))
  end).

(** ** Path of the summary file

    [main] derives the path of the summary file from the path of the
    dispenser file with [str.replace] and [os.path.splitext]. *)

(** [s.replace(old, new)] for a non-empty [old]: the occurrences of [old]
    are replaced from left to right, the search resuming after each one;
    [skip] counts the characters of an occurrence still to pass over. *)
Fixpoint replace_from (old new : string) (skip : nat) (s : string) : string :=
  match s with
  | EmptyString => EmptyString
  | String c s' =>
      match skip with
      | S k => replace_from old new k s'
      | O => if String.prefix old s
             then (new ++ replace_from old new (String.length old - 1) s')%string
             else String c (replace_from old new 0 s')
      end
  end.

Definition str_replace (old new s : string) : string :=
  replace_from old new 0 s.

(** [s.rfind(c)] for a character [c]: the highest index of [c] in [s], or
    -1; [i] is the index of the head of [s] and [found] the result so far. *)
Fixpoint rfind_from (i found : Z) (c : ascii) (s : string) : Z :=
  match s with
  | EmptyString => found
  | String a s' => rfind_from (i + 1) (if Ascii.eqb a c then i else found) c s'
  end.

Definition rfind (s : string) (c : ascii) : Z := rfind_from 0 (-1) c s.

(** The slices [s[:n]] and [s[n:]] for [0 <= n]. *)
Fixpoint str_take (n : nat) (s : string) : string :=
  match n, s with
  | S k, String a s' => String a (str_take k s')
  | _, _ => EmptyString
  end.

Fixpoint str_drop (n : nat) (s : string) : string :=
  match n, s with
  | S k, String _ s' => str_drop k s'
  | _, _ => s
  end.

(** The loop of [genericpath._splitext] over [filenameIndex], for the [n]
    indices from [i] up to [dotIndex]: true when it meets a character
    other than the dot, where the function returns the split at
    [dotIndex]. *)
Fixpoint name_before_dot (p : string) (i : Z) (n : nat) : bool :=
  match n with
  | O => false
  | S k =>
      match String.get (Z.to_nat i) p with
      | Some "."%char => name_before_dot p (i + 1) k
      | _ => true
      end
  end.

(** [os.path.splitext(p)], which is [genericpath._splitext(p, sep, altsep,
    '.')]: [sep] is "/" and there is no [altsep] on POSIX, [sep] is the
    backslash and [altsep] is "/" on Windows.  The extension is what
    follows the last dot after the last separator, unless only dots stand
    between that separator and the dot. *)
Definition splitext (sep : ascii) (altsep : option ascii) (p : string)
    : string * string :=
  let sepIndex := rfind p sep in
  let sepIndex := match altsep with
                  | Some a => Z.max sepIndex (rfind p a)
                  | None => sepIndex
                  end in
  let dotIndex := rfind p "."%char in
  if (sepIndex <? dotIndex)
     && name_before_dot p (sepIndex + 1) (Z.to_nat (dotIndex - (sepIndex + 1)))
  then (str_take (Z.to_nat dotIndex) p, str_drop (Z.to_nat dotIndex) p)
  else (p, EmptyString).

(** [summary_path] of [main], from [output_path]. *)
Definition summary_path (sep : ascii) (altsep : option ascii)
    (output_path : string) : string :=
  let summary_path := str_replace "_idot.csv" "_summary.csv" output_path in
  if String.eqb summary_path output_path
  then ((splitext sep altsep output_path).1 ++ "_summary.csv")%string
  else summary_path.

(** ** Specification vocabulary *)

(** The well at position [i] of the column-major fill order: the row cycles
    fastest (column 1 rows A..H, then column 2 rows A..H, ...). *)
Definition column_major_well (i : nat) : string :=
  String (default "A"%char (list_ascii_of_string ROWS_96 !! (i mod 8)%nat))
         (Py.str_of_int (Z.of_nat (i / 8) + 1)).

(** What it means for [generate_target_wells count] to return exactly [count]
    pairwise distinct wells in column-major order. *)
Definition enumerates (count : Z) : Prop :=
  ∃ wells, generate_target_wells count = ok wells
         ∧ Z.of_nat (length wells) = count
         ∧ NoDup wells
         ∧ wells = column_major_well <$> seq 0 (length wells).

(** The display sort, [sorted(wells, key=well_sort_key)], applied to the
    first [n] wells of the fill order. *)
Definition display_sorted_prefix (n : nat) : bool :=
  match Py.sorted_by well_sort_key Py.tuple_le (take n all_wells) with
  | inr wells => bool_decide (wells = take n all_wells)
  | inl _ => false
  end.

(** The Cartesian product in lexicographic order, the first group varying
    slowest: every element of the first group, in order, is put in front of
    every combination of the remaining groups, in order. *)
Fixpoint lex_product {A} (groups : list (list A)) : list (list A) :=
  match groups with
  | [] => [[]]
  | g :: gs => x ← g; (x ::.) <$> lex_product gs
  end.

(** Least-used-first selection: [best] is one of [wells], no well of the
    list has a smaller count, and every well declared before it has a
    strictly larger one (so ties go to the earliest declared). *)
Definition least_used_first {A} (count : A → nat) (wells : list A) (best : A)
    : Prop :=
  ∃ i, wells !! i = Some best
     ∧ (∀ w, w ∈ wells → (count best ≤ count w)%nat)
     ∧ (∀ j w, (j < i)%nat → wells !! j = Some w → (count best < count w)%nat).

(** The effect of one call of [pick_source_well] on the usage counter, as a
    function of the counter alone. *)
Definition choose (reagent_to_wells : gmap string (list string))
    (usage : gmap string nat) (reagent : string)
    : result (string * gmap string nat) :=
  match reagent_to_wells !! reagent with
  | None => raise (KeyError reagent)
  | Some wells =>
      rbind (Py.min_by (usage_get usage) wells) (λ best,
      ok (best, <[best := (usage_get usage best + 1)%nat]> usage))
  end.

(** The sources chosen for a sequence of parts picked one after the other,
    with the counter they leave. *)
Fixpoint choose_all (rtw : gmap string (list string))
    (usage : gmap string nat) (parts : list string)
    : result (list string * gmap string nat) :=
  match parts with
  | [] => ok ([], usage)
  | part :: parts' =>
      rbind (choose rtw usage part) (λ '(src, usage'),
      rbind (choose_all rtw usage' parts') (λ '(srcs, usage''),
      ok (src :: srcs, usage'')))
  end.

(** [srcs] are sources chosen for [parts], picked one after the other from
    some state of the counter. *)
Definition sources_for (rtw : gmap string (list string))
    (parts srcs : list string) : Prop :=
  ∃ usage usage', choose_all rtw usage parts = ok (srcs, usage').

Section rows_of_a_reaction.
Context (V d : float) (mmw mmn : string).

(** Rows written for the parts of a reaction, given the sources chosen. *)
Definition part_rows (target : string) (srcs parts : list string) : list row :=
  zip_with (λ src part, (src, target, d, part)) srcs parts.

(** Rows written for the filler (mastermix) of a reaction. *)
Definition filler_rows (target : string) (n_parts : nat) : list row :=
  if Float.ltb (Float.of_int 0) (mm_vol V d n_parts)
  then [(mmw, target, mm_vol V d n_parts, mmn)]
  else [].

(** The block of rows of one reaction: its parts, then its filler. *)
Definition block (r : reaction) (srcs : list string) : list row :=
  part_rows r.1 srcs r.2 ++ filler_rows r.1 (length r.2).

(** The parts of the reaction alone exceed the total volume. *)
Definition exceeds (r : reaction) : bool :=
  Float.ltb (mm_vol V d (length r.2)) (Float.of_int 0).

(** The exception raised for such a reaction. *)
Definition volume_error (r : reaction) : exn :=
  ValueError (VolumeExceeded r.1 (length r.2) d
    (Float.mul (Float.of_int (Z.of_nat (length r.2))) d) V).
End rows_of_a_reaction.

(** The parts named by the reactions that are not keys of the reagent map:
    the set [missing] of [build_dispense_rows]. *)
Definition missing_parts (rtw : gmap string (list string))
    (reactions : list reaction) : gset string :=
  all_parts reactions ∖ dom rtw.

(** Every reagent of the list is declared, with at least one well. *)
Definition declared (rtw : gmap string (list string)) (parts : list string)
    : Prop :=
  Forall (λ p, ∃ wells, rtw !! p = Some wells ∧ wells ≠ []) parts.

(** The number of times [w] occurs among the sources [srcs]. *)
Definition times_picked (w : string) (srcs : list string) : nat :=
  length (filter (λ src, src = w) srcs).

(** Least-used-first load balancing of a sequence of parts: each part is
    drawn from a least-used well of its reagent (earliest declared on
    ties), and the count of the chosen well then goes up by one. *)
Inductive picks (rtw : gmap string (list string))
    : gmap string nat → list string → list string → gmap string nat → Prop :=
  | picks_nil usage : picks rtw usage [] [] usage
  | picks_cons usage part wells src parts srcs usage' :
      rtw !! part = Some wells →
      least_used_first (usage_get usage) wells src →
      picks rtw (<[src := (usage_get usage src + 1)%nat]> usage)
            parts srcs usage' →
      picks rtw usage (part :: parts) (src :: srcs) usage'.

(** *** Values of the examples *)

(** Reagent "R" declared at wells A1 and A2. *)
Definition example_rtw : gmap string (list string) := {["R" := ["A1"; "A2"]]}.

(** Three reactions, each using "R" once. *)
Definition example_reactions : list reaction :=
  [("B1", ["R"]); ("B2", ["R"]); ("B3", ["R"])].

(** The volumes 10, 0.5, 8.5 and 9.5 uL. *)
Definition ten : float := Float.of_int 10.
Definition half : float := Float.of_binary 1 (-1).
Definition eight_and_half : float := Float.of_binary 17 (-1).
Definition nine_and_half : float := Float.of_binary 19 (-1).

(** *** Vocabulary of the further properties *)

(** The value of a decimal numeral read most significant digit first,
    continuing from [acc]. *)
Fixpoint uint_value (d : Decimal.uint) (acc : Z) : Z :=
  match d with
  | Decimal.Nil => acc
  | Decimal.D0 d => uint_value d (10 * acc)
  | Decimal.D1 d => uint_value d (10 * acc + 1)
  | Decimal.D2 d => uint_value d (10 * acc + 2)
  | Decimal.D3 d => uint_value d (10 * acc + 3)
  | Decimal.D4 d => uint_value d (10 * acc + 4)
  | Decimal.D5 d => uint_value d (10 * acc + 5)
  | Decimal.D6 d => uint_value d (10 * acc + 6)
  | Decimal.D7 d => uint_value d (10 * acc + 7)
  | Decimal.D8 d => uint_value d (10 * acc + 8)
  | Decimal.D9 d => uint_value d (10 * acc + 9)
  end.

(** The number of digits of the decimal text of an integer, its sign
    apart. *)
Definition decimal_digits (z : Z) : Z :=
  Z.of_nat (String.length (Py.str_of_int (Z.abs z))).

(** The counts of the wells of one reagent are level: along the order of
    declaration they never increase, and they differ by at most one. *)
Definition balanced (usage : gmap string nat) (wells : list string) : Prop :=
  ∀ i j wi wj, (i < j)%nat → wells !! i = Some wi → wells !! j = Some wj →
    (usage_get usage wj ≤ usage_get usage wi ≤ usage_get usage wj + 1)%nat.

(** No well is declared twice, neither for one reagent nor for two. *)
Definition separate_wells (rtw : gmap string (list string)) : Prop :=
  (∀ r wells, rtw !! r = Some wells → NoDup wells)
  ∧ (∀ r1 r2 wells1 wells2 w,
       r1 ≠ r2 → rtw !! r1 = Some wells1 → rtw !! r2 = Some wells2 →
       w ∈ wells1 → w ∉ wells2).

Section reader_vocabulary.
Context {cell : Type} (is_None : cell → bool) (py_str : cell → string).

(** The wells of the source-plate rows that name reagent [r], in row order,
    as upper-case text; rows without a well are left out. *)
Definition plate_wells (pairs : list (cell * cell)) (r : string) : list string :=
  omap (λ '(well, reagent),
          let w := Str.upper (_cell_to_str is_None py_str well) in
          if bool_decide (w ≠ "" ∧ _cell_to_str is_None py_str reagent = r)
          then Some w else None) pairs.

(** The values of the settings rows whose key is not None and reads [k]. *)
Definition settings_values (pairs : list (cell * cell)) (k : string) : list cell :=
  omap (λ '(key, val),
          if bool_decide (is_None key = false
                          ∧ _cell_to_str is_None py_str key = k)
          then Some val else None) pairs.
End reader_vocabulary.

Section combinatorial_vocabulary.
Context {cell : Type} (is_None : cell → bool) (py_str : cell → string).
Context (ws : worksheet cell).

(** The group a header cell gives, if any: the column of a named header
    other than "common" (in any case), when it has a non-empty cell. *)
Definition header_group (col : nat * string) : option (list string) :=
  if bool_decide (col.2 = "") then None
  else if bool_decide (Str.lower col.2 = "common") then None
  else if bool_decide (column_values is_None py_str ws col.1 = []) then None
  else Some (column_values is_None py_str ws col.1).

(** The common parts a header cell gives, if it reads "common". *)
Definition header_common (col : nat * string) : option (list string) :=
  if bool_decide (col.2 = "") then None
  else if bool_decide (Str.lower col.2 = "common")
       then Some (column_values is_None py_str ws col.1)
       else None.
End combinatorial_vocabulary.

(** A reaction as the data model wants it: a target, at least one part, no
    part without a name. *)
Definition proper_reaction (r : reaction) : Prop :=
  r.1 ≠ "" ∧ r.2 ≠ [] ∧ Forall (λ part, part ≠ "") r.2.

(** Cells for the examples: an empty cell or a text. *)
Definition text_is_None (c : option string) : bool :=
  match c with None => true | Some _ => false end.
Definition text_str (c : option string) : string := default "None" c.

(** The dispense rows drawn from source well [w], in order. *)
Definition rows_from (w : string) (dispense_rows : list row) : list row :=
  filter (λ r : row, r.1.1.1 = w) dispense_rows.

(** The well has a sort key. *)
Definition has_key (well : string) : Prop := ∃ k, well_sort_key well = ok k.

(** The total drawn from source well [w]: the volumes of its rows, added
    in order, starting from zero. *)
Definition total_from (w : string) (dispense_rows : list row) : float :=
  foldl float_add (Float.of_int 0)
        ((λ r : row, r.1.2) <$> rows_from w dispense_rows).

(** The liquid name of the last row drawn from source well [w]. *)
Definition last_name (w : string) (dispense_rows : list row) : option string :=
  last ((λ r : row, r.2) <$> rows_from w dispense_rows).

(** Well [a] comes no later than well [b] in the order of the sort keys:
    by column number, then by row. *)
Definition key_le (a b : string) : Prop :=
  ∃ ka kb, well_sort_key a = ok ka ∧ well_sort_key b = ok kb
           ∧ Py.tuple_le ka kb = true.

(** The source wells of the dispense rows, one per row. *)
Definition row_sources (dispense_rows : list row) : list string :=
  (λ r : row, r.1.1.1) <$> dispense_rows.

(** The wells of the per-source table of a summary, in the order of its
    lines. *)
Definition table_wells (s : summary) : list string :=
  (λ entry : string * string * float, entry.1.1) <$> source_table s.

(** Tactics for the side conditions of the examples: every part is "R",
    declared at two wells, and the volumes are compared by evaluation. *)
Ltac declared_example :=
  unfold declared; simpl;
  repeat (apply Forall_cons; split;
          [exists ["A1"; "A2"]; split; [reflexivity|discriminate]|]);
  apply Forall_nil_2.

Ltac volumes_fit :=
  repeat (apply Forall_cons; split; [vm_compute; reflexivity|]);
  apply Forall_nil_2.

(** ** WellGrid *)

Lemma all_wells_column_major : all_wells = column_major_well <$> seq 0 96.
Proof. vm_compute. reflexivity. Qed.

Lemma all_wells_length : length all_wells = 96%nat.
Proof. reflexivity. Qed.

Lemma all_wells_NoDup : NoDup all_wells.
Proof. apply (bool_decide_unpack _). vm_compute. reflexivity. Qed.

Lemma generate_target_wells_in_range (n : nat) :
  (n ≤ 96)%nat → generate_target_wells (Z.of_nat n) = ok (take n all_wells).
Proof.
  intros Hn. unfold generate_target_wells. rewrite all_wells_length.
  destruct (_ <? _) eqn:Hlt; [apply Z.ltb_lt in Hlt; lia|].
  unfold Py.slice_to.
  destruct (0 <=? _) eqn:Hle; [|apply Z.leb_gt in Hle; lia].
  by rewrite Nat2Z.id.
Qed.

Lemma generate_target_wells_overflow (count : Z) :
  96 < count →
  generate_target_wells count = raise (ValueError (NeedTargetWells count 96)).
Proof.
  intros Hc. unfold generate_target_wells. rewrite all_wells_length.
  destruct (_ <? _) eqn:Hlt; [done|]. apply Z.ltb_ge in Hlt. lia.
Qed.

Lemma take_all_wells_column_major (n : nat) :
  (n ≤ 96)%nat → take n all_wells = column_major_well <$> seq 0 n.
Proof.
  intros Hn. rewrite all_wells_column_major, <- fmap_take. f_equal.
  replace 96%nat with (n + (96 - n))%nat by lia.
  by rewrite seq_app, take_app_length' by (by rewrite length_seq).
Qed.

(** C6: for every count of wells up to 96, [generate_target_wells count]
    returns exactly [count] pairwise distinct wells, in column-major order;
    for every count above 96 it fails with the capacity error.  A count of
    wells is not negative: the caller passes the length of a list. *)
Theorem generate_target_wells_spec (count : Z) :
  (0 ≤ count ≤ 96 → enumerates count) ∧
  (96 < count →
   generate_target_wells count = raise (ValueError (NeedTargetWells count 96))).
Proof.
  split; [|apply generate_target_wells_overflow].
  intros [Hlo Hhi]. exists (take (Z.to_nat count) all_wells).
  assert (Hn : (Z.to_nat count ≤ 96)%nat) by lia.
  assert (Hlen : length (take (Z.to_nat count) all_wells) = Z.to_nat count).
  { rewrite length_take, all_wells_length. lia. }
  split_and!.
  - rewrite <- (Z2Nat.id count) at 1 by done.
    by apply generate_target_wells_in_range.
  - rewrite Hlen. lia.
  - pose proof all_wells_NoDup as Hnd.
    rewrite <- (take_drop (Z.to_nat count) all_wells) in Hnd.
    by apply NoDup_app in Hnd as [? _].
  - rewrite Hlen. by apply take_all_wells_column_major.
Qed.

Lemma generate_target_wells_spec_witness :
  enumerates 4 ∧
  generate_target_wells 97 = raise (ValueError (NeedTargetWells 97 96)).
Proof.
  split.
  - apply (generate_target_wells_spec 4). lia.
  - apply (generate_target_wells_spec 97). lia.
Defined.

Lemma display_sorted_prefixes :
  forallb display_sorted_prefix (seq 0 97) = true.
Proof. vm_compute. reflexivity. Qed.

(** C9: for every count from 0 to 96, sorting the list returned by
    [generate_target_wells count] by [well_sort_key] returns that same
    list: the fill order and the display order agree. *)
Theorem generate_target_wells_sorted_fixpoint (count : Z) :
  0 ≤ count ≤ 96 →
  ∃ wells, generate_target_wells count = ok wells
         ∧ Py.sorted_by well_sort_key Py.tuple_le wells = ok wells.
Proof.
  intros [Hlo Hhi]. exists (take (Z.to_nat count) all_wells). split.
  - rewrite <- (Z2Nat.id count) at 1 by done.
    apply generate_target_wells_in_range. lia.
  - pose proof display_sorted_prefixes as Hall.
    rewrite forallb_forall in Hall.
    assert (Hin : In (Z.to_nat count) (seq 0 97)) by (apply in_seq; lia).
    apply Hall in Hin. unfold display_sorted_prefix in Hin.
    destruct (Py.sorted_by _ _ _) as [e|wells]; [done|].
    f_equal. by apply bool_decide_eq_true in Hin.
Qed.

Lemma generate_target_wells_sorted_fixpoint_witness :
  ∃ wells, generate_target_wells 20 = ok wells
         ∧ Py.sorted_by well_sort_key Py.tuple_le wells = ok wells.
Proof. apply (generate_target_wells_sorted_fixpoint 20). lia. Defined.

(** ** ReactionExpander *)

Lemma product_foldl {A} (groups : list (list A)) (res : list (list A)) :
  foldl (λ res pool, x ← res; y ← pool; [x ++ [y]]) res groups
  = (x ← res; (x ++.) <$> lex_product groups).
Proof.
  revert res. induction groups as [|g gs IH]; intros res; simpl.
  - induction res as [|x res IHres]; [done|]. csimpl.
    by rewrite <- IHres, app_nil_r.
  - rewrite IH. clear IH.
    induction res as [|x res IHres]; [done|]. csimpl.
    rewrite bind_app, IHres. f_equal. clear IHres.
    induction g as [|y g IHg]; [done|]. csimpl.
    rewrite fmap_app, <- IHg. f_equal.
    rewrite <- list_fmap_compose.
    apply list_fmap_ext. intros _ l _. simpl. by rewrite <- app_assoc.
Qed.

Lemma product_lex {A} (groups : list (list A)) :
  Py.product groups = lex_product groups.
Proof.
  unfold Py.product. rewrite product_foldl. simpl.
  rewrite app_nil_r. apply list_fmap_id.
Qed.

(** The product is full: its elements are exactly the ways of choosing one
    part from each group, in group order. *)
Lemma elem_of_lex_product {A} (groups : list (list A)) (combo : list A) :
  combo ∈ lex_product groups ↔ Forall2 (λ x g, x ∈ g) combo groups.
Proof.
  revert combo. induction groups as [|g gs IH]; intros combo; simpl.
  - rewrite list_elem_of_singleton. split; [intros ->; constructor|by inv 1].
  - rewrite list_elem_of_bind. split.
    + intros (x & Hc & Hx). apply list_elem_of_fmap in Hc as (c & -> & Hc).
      constructor; [done|]. by apply IH.
    + inv 1 as [|x ? c ? Hx Hc]. exists x. split; [|done].
      apply list_elem_of_fmap. exists c. split; [done|]. by apply IH.
Qed.

Lemma lex_product_length {A} (groups : list (list A)) :
  length (lex_product groups) = foldr (λ g n, (length g * n)%nat) 1%nat groups.
Proof.
  induction groups as [|g gs IH]; [done|]. csimpl. rewrite <- IH. clear IH.
  induction g as [|x g IHg]; [done|]. csimpl.
  by rewrite length_app, length_fmap, IHg.
Qed.

(** C3: combinatorial expansion fails when no group is given; otherwise it
    takes the full Cartesian product of the groups in lexicographic order
    (first group slowest), fails when there are more combinations than wells
    on the plate, and otherwise returns one reaction per combination, in
    production order: the targets are those of [generate_target_wells] for
    the number of combinations, so the [i]-th reaction is the [i]-th well of
    the column-major enumeration with the [i]-th combination's parts (in
    group order) followed by the common parts. *)
Theorem build_combinatorial_reactions_spec
    (common_parts : list string) (groups : list (list string)) :
  let combos := lex_product groups in
  (∀ combo, combo ∈ combos ↔ Forall2 (λ part g, part ∈ g) combo groups) ∧
  (groups = [] →
   build_combinatorial_reactions common_parts groups
   = raise (ValueError NoPartGroups)) ∧
  (groups ≠ [] → (96 < length combos)%nat →
   build_combinatorial_reactions common_parts groups
   = raise (ValueError (NeedTargetWells (Z.of_nat (length combos)) 96))) ∧
  (groups ≠ [] → (length combos ≤ 96)%nat →
   ∃ targets,
     generate_target_wells (Z.of_nat (length combos)) = ok targets
     ∧ targets = column_major_well <$> seq 0 (length combos)
     ∧ build_combinatorial_reactions common_parts groups
       = ok (zip_with (λ target combo, (target, combo ++ common_parts))
                      targets combos)).
Proof.
  intros combos. split_and!.
  - apply elem_of_lex_product.
  - by intros ->.
  - intros Hne Hlen. destruct groups as [|g gs]; [done|].
    unfold build_combinatorial_reactions. rewrite product_lex.
    fold combos. rewrite generate_target_wells_overflow by lia. done.
  - intros Hne Hlen. destruct groups as [|g gs]; [done|].
    exists (take (length combos) all_wells). split_and!.
    + by apply generate_target_wells_in_range.
    + by apply take_all_wells_column_major.
    + unfold build_combinatorial_reactions. rewrite product_lex.
      fold combos. by rewrite generate_target_wells_in_range.
Qed.

Lemma build_combinatorial_reactions_spec_witness :
  build_combinatorial_reactions ["c"] [["a"; "b"]; ["x"; "y"]]
  = ok [("A1", ["a"; "x"; "c"]); ("B1", ["a"; "y"; "c"]);
        ("C1", ["b"; "x"; "c"]); ("D1", ["b"; "y"; "c"])]
  ∧ build_combinatorial_reactions ["c"] [] = raise (ValueError NoPartGroups)
  ∧ build_combinatorial_reactions [] [replicate 97 "p"]
    = raise (ValueError (NeedTargetWells 97 96)).
Proof.
  split_and!.
  - destruct (build_combinatorial_reactions_spec ["c"] [["a"; "b"]; ["x"; "y"]])
      as (_ & _ & _ & Hok).
    destruct Hok as (targets & _ & -> & ->); [done|simpl; lia|reflexivity].
  - by apply (build_combinatorial_reactions_spec ["c"] []).
  - destruct (build_combinatorial_reactions_spec [] [replicate 97 "p"])
      as (_ & _ & Hfail & _).
    rewrite Hfail; [reflexivity|done|vm_compute; lia].
Defined.

(** C8: manual expansion fails on an empty list of reactions; a non-empty
    list whose part lists are all non-empty is returned unchanged (duplicate
    target wells included). *)
Theorem build_manual_reactions_spec :
  build_manual_reactions [] = raise (ValueError NoReactionsFound) ∧
  ∀ manual_rows : list reaction,
    manual_rows ≠ [] → Forall (λ r, r.2 ≠ []) manual_rows →
    build_manual_reactions manual_rows = ok manual_rows.
Proof.
  split; [done|]. intros [|r rs] Hne _; [done|reflexivity].
Qed.

Lemma build_manual_reactions_spec_witness :
  build_manual_reactions [("A1", ["p"]); ("B1", ["q"; "r"]); ("A1", ["s"])]
  = ok [("A1", ["p"]); ("B1", ["q"; "r"]); ("A1", ["s"])].
Proof.
  apply build_manual_reactions_spec; [done|].
  repeat constructor; discriminate.
Defined.

(** The non-emptiness of the part lists is a requirement on the caller (the
    sheet readers drop targets without parts); [build_manual_reactions]
    itself does not inspect the part lists. *)
Lemma build_manual_reactions_nonempty (manual_rows : list reaction) :
  manual_rows ≠ [] → build_manual_reactions manual_rows = ok manual_rows.
Proof. by destruct manual_rows. Qed.

(** ** DispensePlanner: source-well selection *)

Lemma min_by_least_used_first {A} (count : A → nat) (wells : list A) :
  wells ≠ [] →
  ∃ best, Py.min_by count wells = ok best ∧ least_used_first count wells best.
Proof.
  destruct wells as [|x l]; [done|]. intros _. simpl.
  eexists. split; [reflexivity|].
  induction l as [|y l IH] using rev_ind; simpl.
  - exists 0%nat. split_and!; [done| |lia].
    intros w ->%list_elem_of_singleton. lia.
  - rewrite foldl_snoc, app_comm_cons.
    set (best0 := foldl _ x l) in *.
    destruct IH as (i & Hi & Hmin & Hfirst).
    assert (Hlt : (i < length (x :: l))%nat) by by eapply lookup_lt_Some.
    destruct (Nat.ltb_spec (count y) (count best0)) as [Hy|Hy].
    + exists (length (x :: l)). split_and!.
      * by rewrite (lookup_app_r (x :: l)), Nat.sub_diag by done.
      * intros w [Hw| ->%list_elem_of_singleton]%(elem_of_app (x :: l)); [|lia].
        apply Hmin in Hw. lia.
      * intros j w Hj Hw. rewrite (lookup_app_l (x :: l)) in Hw by done.
        apply list_elem_of_lookup_2, Hmin in Hw. lia.
    + exists i. split_and!.
      * by rewrite (lookup_app_l (x :: l)).
      * intros w [Hw| ->%list_elem_of_singleton]%(elem_of_app (x :: l)); [|lia].
        by apply Hmin.
      * intros j w Hj Hw. rewrite (lookup_app_l (x :: l)) in Hw by lia.
        by eapply Hfirst.
Qed.

Lemma pick_source_well_choose rtw reagent st :
  pick_source_well rtw reagent st =
  rbind (choose rtw (well_usage st) reagent) (λ '(best, usage),
  ok (best, Locals usage (rows st))).
Proof.
  unfold pick_source_well, choose, bind, lift, get_well_usage.
  destruct (rtw !! reagent) as [wells|]; [|done]. simpl.
  by destruct (Py.min_by _ wells).
Qed.

Lemma choose_all_app rtw usage parts1 parts2 :
  choose_all rtw usage (parts1 ++ parts2) =
  rbind (choose_all rtw usage parts1) (λ '(srcs1, usage1),
  rbind (choose_all rtw usage1 parts2) (λ '(srcs2, usage2),
  ok (srcs1 ++ srcs2, usage2))).
Proof.
  revert usage. induction parts1 as [|p ps IH]; intros usage; simpl.
  - by destruct (choose_all rtw usage parts2) as [|[]].
  - destruct (choose rtw usage p) as [|[src usage']]; [done|]. simpl.
    rewrite IH. destruct (choose_all rtw usage' ps) as [|[srcs1 usage1]]; [done|].
    simpl. by destruct (choose_all rtw usage1 parts2) as [|[]].
Qed.

Lemma choose_all_length rtw usage parts srcs usage' :
  choose_all rtw usage parts = ok (srcs, usage') → length srcs = length parts.
Proof.
  revert usage srcs. induction parts as [|p ps IH]; intros usage srcs; simpl.
  - by intros [= <- _].
  - destruct (choose rtw usage p) as [|[src u1]]; [done|]. simpl.
    destruct (choose_all rtw u1 ps) as [|[srcs1 u2]] eqn:Hps; [done|].
    intros [= <- <-]. simpl. f_equal. by eapply IH.
Qed.

Lemma choose_inv rtw usage reagent best usage' :
  choose rtw usage reagent = ok (best, usage') →
  ∃ wells, rtw !! reagent = Some wells
         ∧ least_used_first (usage_get usage) wells best
         ∧ usage' = <[best := (usage_get usage best + 1)%nat]> usage.
Proof.
  unfold choose. destruct (rtw !! reagent) as [wells|]; [|done].
  destruct wells as [|w wells]; [done|].
  destruct (min_by_least_used_first (usage_get usage) (w :: wells))
    as (best' & -> & Hbest); [done|].
  simpl. intros [= <- <-]. by exists (w :: wells).
Qed.

Lemma choose_ok rtw usage reagent wells :
  rtw !! reagent = Some wells → wells ≠ [] →
  ∃ best, choose rtw usage reagent
          = ok (best, <[best := (usage_get usage best + 1)%nat]> usage).
Proof.
  intros Hwells Hne. unfold choose. rewrite Hwells.
  destruct (min_by_least_used_first (usage_get usage) wells Hne)
    as (best & -> & _).
  by exists best.
Qed.

Lemma sources_for_length rtw parts srcs :
  sources_for rtw parts srcs → length srcs = length parts.
Proof. intros (usage & usage' & Hch). by eapply choose_all_length. Qed.

(** Each source is one of the wells declared for its reagent. *)
Lemma sources_for_declared rtw parts srcs :
  sources_for rtw parts srcs →
  Forall2 (λ src part, ∃ wells, rtw !! part = Some wells ∧ src ∈ wells)
          srcs parts.
Proof.
  intros (usage & usage' & Hch). revert usage srcs Hch.
  induction parts as [|p ps IH]; intros usage srcs; simpl.
  - intros [= <- _]. constructor.
  - destruct (choose rtw usage p) as [|[src u1]] eqn:Hp; [done|]. simpl.
    destruct (choose_all rtw u1 ps) as [|[srcs1 u2]] eqn:Hps; [done|].
    intros [= <- <-]. constructor; [|by apply (IH u1)].
    apply choose_inv in Hp as (wells & Hwells & (i & Hi & _) & _).
    exists wells. split; [done|]. by eapply list_elem_of_lookup_2.
Qed.

(** ** DispensePlanner: the loops *)

Lemma for_each_app {A} (l1 l2 : list A) (body : A → M unit) st :
  for_each (l1 ++ l2) body st = (for_each l1 body ;; for_each l2 body) st.
Proof.
  revert st. induction l1 as [|x l1 IH]; intros st; simpl; [done|].
  unfold bind in *. destruct (body x st) as [|[[] st1]]; [done|]. apply IH.
Qed.

Section planner_facts.
Context (rtw : gmap string (list string)).
Context (V d : float) (mmw mmn : string).

Local Abbreviation pick := (pick_source_well rtw).
Local Abbreviation step := (dispense_reaction rtw V d mmw mmn).

Lemma parts_loop target parts st :
  for_each parts (λ part,
    src <- pick part ;; rows_append (src, target, d, part)) st
  = rbind (choose_all rtw (well_usage st) parts) (λ '(srcs, usage),
    ok (tt, Locals usage (rows st ++ part_rows d target srcs parts))).
Proof.
  revert st. induction parts as [|p ps IH]; intros st; simpl.
  - unfold ret, part_rows. destruct st. by rewrite app_nil_r.
  - unfold bind at 1 2. rewrite pick_source_well_choose.
    destruct (choose rtw (well_usage st) p) as [|[src u1]]; [done|]. simpl.
    rewrite IH. simpl.
    destruct (choose_all rtw u1 ps) as [|[srcs u2]]; [done|]. simpl.
    unfold part_rows. simpl. by rewrite <- app_assoc.
Qed.

Lemma dispense_reaction_run (r : reaction) st :
  step r st =
  if exceeds V d r then raise (volume_error V d r)
  else rbind (choose_all rtw (well_usage st) r.2) (λ '(srcs, usage),
       ok (tt, Locals usage (rows st ++ block V d mmw mmn r srcs))).
Proof.
  destruct r as [target parts]. unfold dispense_reaction, exceeds. simpl.
  destruct (Float.ltb (mm_vol V d (length parts)) _); [done|].
  unfold bind at 1. rewrite parts_loop.
  destruct (choose_all rtw (well_usage st) parts) as [|[srcs u]]; [done|].
  simpl. unfold block, filler_rows. simpl.
  destruct (Float.ltb _ (mm_vol V d (length parts))); simpl.
  - unfold rows_append. simpl. by rewrite <- app_assoc.
  - unfold ret. by rewrite app_nil_r.
Qed.

(** A completed pass over the reactions: no reaction exceeded the volume,
    the sources are those of picking all parts in order, and the rows are
    the blocks of the reactions, in order, after the rows already there. *)
Lemma reactions_loop_inv (reactions : list reaction) st st' :
  for_each reactions step st = ok (tt, st') →
  ∃ srcss,
    Forall2 (λ r srcs, sources_for rtw r.2 srcs) reactions srcss
    ∧ Forall (λ r, exceeds V d r = false) reactions
    ∧ choose_all rtw (well_usage st) (concat (snd <$> reactions))
      = ok (concat srcss, well_usage st')
    ∧ rows st' = rows st ++ concat (zip_with (block V d mmw mmn) reactions srcss).
Proof.
  revert st. induction reactions as [|r rs IH]; intros st; csimpl.
  - intros [= <-]. exists []. split_and!; try done. by rewrite app_nil_r.
  - unfold bind at 1. rewrite dispense_reaction_run.
    destruct (exceeds V d r) eqn:Hr; [done|].
    destruct (choose_all rtw (well_usage st) r.2) as [|[srcs u1]] eqn:Hsrcs;
      [done|].
    csimpl. intros (srcss & Hlen & Hex & Hch & Hrows)%IH. csimpl in *.
    exists (srcs :: srcss). split_and!.
    + constructor; [|done]. by eexists _, _.
    + by constructor.
    + rewrite choose_all_app, Hsrcs. csimpl. by rewrite Hch.
    + rewrite Hrows. csimpl. by rewrite <- app_assoc.
Qed.

(** The pass completes when no reaction exceeds the volume and every pick
    succeeds. *)
Lemma reactions_loop_ok (reactions : list reaction) st srcs usage :
  Forall (λ r, exceeds V d r = false) reactions →
  choose_all rtw (well_usage st) (concat (snd <$> reactions))
  = ok (srcs, usage) →
  ∃ st', for_each reactions step st = ok (tt, st').
Proof.
  revert st srcs usage.
  induction reactions as [|r rs IH]; intros st srcs usage; csimpl.
  - intros _ _. by eexists.
  - intros [Hr Hrs]%Forall_cons. rewrite choose_all_app.
    unfold bind at 1. rewrite dispense_reaction_run, Hr.
    destruct (choose_all rtw (well_usage st) r.2) as [|[srcs1 u1]]; [done|].
    csimpl.
    destruct (choose_all rtw u1 _) as [|[srcs2 u2]] eqn:Hrest; [done|].
    intros _. by eapply IH.
Qed.

(** The pass stops at the first reaction that exceeds the volume. *)
Lemma reactions_loop_exceeds (pre post : list reaction) (r : reaction)
    st srcs usage :
  Forall (λ r, exceeds V d r = false) pre →
  choose_all rtw (well_usage st) (concat (snd <$> pre)) = ok (srcs, usage) →
  exceeds V d r = true →
  for_each (pre ++ r :: post) step st = raise (volume_error V d r).
Proof.
  intros Hpre Hch Hr. rewrite for_each_app. unfold bind at 1.
  destruct (reactions_loop_ok pre st srcs usage Hpre Hch) as [st' ->].
  simpl. unfold bind. by rewrite dispense_reaction_run, Hr.
Qed.
End planner_facts.

(** *** The pre-flight check *)

Lemma elem_of_concat {A} (x : A) (ls : list (list A)) :
  x ∈ concat ls ↔ ∃ l, x ∈ l ∧ l ∈ ls.
Proof.
  induction ls as [|l ls IH]; simpl.
  - split; [by intros ?%elem_of_nil|]. by intros (l & _ & ?%elem_of_nil).
  - rewrite elem_of_app, IH. split.
    + intros [?|(l' & ? & ?)]; [exists l|exists l']; split; try done;
        by constructor.
    + intros (l' & ? & [->|?]%elem_of_cons); [by left|right; by exists l'].
Qed.

Lemma elem_of_all_parts (reactions : list reaction) (p : string) :
  p ∈ all_parts reactions ↔ ∃ r, r ∈ reactions ∧ p ∈ r.2.
Proof.
  unfold all_parts.
  assert (Hgen : ∀ acc : gset string,
    p ∈ foldl (λ acc r, acc ∪ list_to_set r.2) acc reactions
    ↔ p ∈ acc ∨ ∃ r : reaction, r ∈ reactions ∧ p ∈ r.2).
  { induction reactions as [|r rs IH]; intros acc; simpl.
    - split; [by left|]. by intros [?|(r & ?%elem_of_nil & _)].
    - rewrite IH, elem_of_union, elem_of_list_to_set. split.
      + intros [[?|?]|(r' & ? & ?)]; [by left|right..].
        * exists r. split; [left|done].
        * exists r'. split; [by right|done].
      + intros [?|(r' & [->|?]%elem_of_cons & ?)]; [by left; left|..].
        * left. by right.
        * right. by exists r'. }
  rewrite Hgen, elem_of_empty. tauto.
Qed.

Lemma elem_of_missing_parts rtw (reactions : list reaction) (p : string) :
  p ∈ missing_parts rtw reactions
  ↔ (∃ r, r ∈ reactions ∧ p ∈ r.2) ∧ rtw !! p = None.
Proof.
  unfold missing_parts.
  by rewrite elem_of_difference, elem_of_all_parts, not_elem_of_dom.
Qed.

Lemma missing_parts_empty rtw (reactions : list reaction) :
  missing_parts rtw reactions = ∅
  ↔ Forall (λ p, is_Some (rtw !! p)) (concat (snd <$> reactions)).
Proof.
  rewrite Forall_forall. split.
  - intros Hempty p Hp. destruct (rtw !! p) eqn:Hlook; [done|].
    assert (p ∈ missing_parts rtw reactions) as Hin; [|by rewrite Hempty in Hin].
    apply elem_of_missing_parts. split; [|done].
    apply elem_of_concat in Hp as (parts & Hp & Hparts).
    apply list_elem_of_fmap in Hparts as (r & -> & Hr). by exists r.
  - intros Hall. apply leibniz_equiv, elem_of_equiv_empty. intros p.
    rewrite elem_of_missing_parts. intros [(r & Hr & Hp) Hnone].
    assert (is_Some (rtw !! p)) as [? ?]; [|congruence].
    apply Hall, elem_of_concat. exists r.2. split; [done|].
    apply list_elem_of_fmap. by exists r.
Qed.

(** *** A whole run *)

Section run_facts.
Context (rtw : gmap string (list string)).
Context (V d : float) (mmw mmn : string).

Local Abbreviation build := (build_dispense_rows rtw V d mmw mmn).

Lemma build_dispense_rows_missing (reactions : list reaction) frame :
  missing_parts rtw reactions ≠ ∅ →
  build reactions frame
  = raise (ValueError (PartsNotOnSourcePlate
      (merge_sort String.le (elements (missing_parts rtw reactions))))).
Proof.
  intros Hmiss. unfold build_dispense_rows. fold (missing_parts rtw reactions).
  by destruct (decide (missing_parts rtw reactions = ∅)).
Qed.

Lemma build_dispense_rows_loop (reactions : list reaction) frame :
  missing_parts rtw reactions = ∅ →
  build reactions frame
  = match for_each reactions (dispense_reaction rtw V d mmw mmn)
            (Locals ∅ []) with
    | inl e => inl e
    | inr (_, st) => ok (rows st, st)
    end.
Proof.
  intros Hmiss. unfold build_dispense_rows. fold (missing_parts rtw reactions).
  destruct (decide (missing_parts rtw reactions = ∅)); [|done].
  unfold bind, set_well_usage, set_rows, get_rows. simpl.
  by destruct (for_each _ _ _) as [|[[] st]].
Qed.

(** What a run that returns has done. *)
Lemma build_dispense_rows_inv (reactions : list reaction) frame rws st' :
  build reactions frame = ok (rws, st') →
  missing_parts rtw reactions = ∅ ∧
  ∃ srcss,
    Forall2 (λ r srcs, sources_for rtw r.2 srcs) reactions srcss
    ∧ Forall (λ r, exceeds V d r = false) reactions
    ∧ choose_all rtw ∅ (concat (snd <$> reactions))
      = ok (concat srcss, well_usage st')
    ∧ rws = concat (zip_with (block V d mmw mmn) reactions srcss)
    ∧ rows st' = rws.
Proof.
  intros Hrun.
  destruct (decide (missing_parts rtw reactions = ∅)) as [Hmiss|Hmiss].
  - split; [done|]. rewrite build_dispense_rows_loop in Hrun by done.
    destruct (for_each _ _ _) as [|[[] st]] eqn:Hloop; [done|].
    injection Hrun as <- <-.
    apply reactions_loop_inv in Hloop as (srcss & ? & ? & ? & Hrows).
    exists srcss. by rewrite Hrows.
  - by rewrite build_dispense_rows_missing in Hrun.
Qed.

(** When a run returns. *)
Lemma build_dispense_rows_ok (reactions : list reaction) frame srcs usage :
  missing_parts rtw reactions = ∅ →
  Forall (λ r, exceeds V d r = false) reactions →
  choose_all rtw ∅ (concat (snd <$> reactions)) = ok (srcs, usage) →
  ∃ rws st', build reactions frame = ok (rws, st').
Proof.
  intros Hmiss Hvol Hch. rewrite build_dispense_rows_loop by done.
  destruct (reactions_loop_ok rtw V d mmw mmn reactions (Locals ∅ [])
              srcs usage Hvol Hch) as [st' ->].
  by eexists _, _.
Qed.

(** When a run fails on the volume of a reaction. *)
Lemma build_dispense_rows_exceeds (pre post : list reaction) (r : reaction)
    frame srcs usage :
  missing_parts rtw (pre ++ r :: post) = ∅ →
  Forall (λ r, exceeds V d r = false) pre →
  choose_all rtw ∅ (concat (snd <$> pre)) = ok (srcs, usage) →
  exceeds V d r = true →
  build (pre ++ r :: post) frame = raise (volume_error V d r).
Proof.
  intros Hmiss Hpre Hch Hr. rewrite build_dispense_rows_loop by done.
  by erewrite reactions_loop_exceeds.
Qed.
End run_facts.

(** *** Facts about the counter *)

Lemma choose_all_ok rtw usage parts :
  declared rtw parts → ∃ srcs usage', choose_all rtw usage parts = ok (srcs, usage').
Proof.
  revert usage. induction parts as [|p ps IH]; intros usage; simpl.
  - intros _. by eexists _, _.
  - intros [(wells & Hwells & Hne) Hps]%Forall_cons.
    destruct (choose_ok rtw usage p wells Hwells Hne) as [best ->]. simpl.
    destruct (IH (<[best := (usage_get usage best + 1)%nat]> usage) Hps)
      as (srcs & usage' & ->).
    by eexists _, _.
Qed.

Lemma declared_app rtw parts1 parts2 :
  declared rtw (parts1 ++ parts2) ↔ declared rtw parts1 ∧ declared rtw parts2.
Proof. apply Forall_app. Qed.

Lemma declared_missing_parts rtw (reactions : list reaction) :
  declared rtw (concat (snd <$> reactions)) → missing_parts rtw reactions = ∅.
Proof.
  intros Hdecl. apply missing_parts_empty.
  eapply Forall_impl; [exact Hdecl|]. by intros p (wells & -> & _).
Qed.

Lemma usage_get_insert (usage : gmap string nat) (w w' : string) (n : nat) :
  usage_get (<[w := n]> usage) w' = if decide (w = w') then n else usage_get usage w'.
Proof.
  unfold usage_get. rewrite lookup_insert. by destruct (decide (w = w')).
Qed.

(** The counter counts the picks, and nothing else. *)
Lemma choose_all_counts rtw usage parts srcs usage' (w : string) :
  choose_all rtw usage parts = ok (srcs, usage') →
  usage_get usage' w = (usage_get usage w + times_picked w srcs)%nat.
Proof.
  revert usage srcs. induction parts as [|p ps IH]; intros usage srcs; simpl.
  - intros [= <- <-]. unfold times_picked. simpl. lia.
  - destruct (choose rtw usage p) as [|[src u1]] eqn:Hp; [done|]. simpl.
    destruct (choose_all rtw u1 ps) as [|[srcs1 u2]] eqn:Hps; [done|].
    intros [= <- <-]. apply IH in Hps. rewrite Hps.
    apply choose_inv in Hp as (_ & _ & _ & ->).
    rewrite usage_get_insert. unfold times_picked. rewrite filter_cons.
    destruct (decide (src = w)) as [->|]; simpl; lia.
Qed.

(** ** DispensePlanner: the stated properties *)

(** C4: when some part named by some reaction is not a key of the reagent
    map, the planner fails with the missing-reagent error, whatever the
    volumes are; the names in the message are exactly the undeclared parts
    of all the reactions, each once, in sorted order.  The check is made
    before the loop over the reactions starts. *)
Theorem build_dispense_rows_missing_reagents
    (rtw : gmap string (list string)) (V d : float) (mmw mmn : string)
    (reactions : list reaction) (frame : locals) :
  (∃ r p, r ∈ reactions ∧ p ∈ r.2 ∧ rtw !! p = None) →
  ∃ names,
    build_dispense_rows rtw V d mmw mmn reactions frame
    = raise (ValueError (PartsNotOnSourcePlate names))
    ∧ StronglySorted String.le names
    ∧ NoDup names
    ∧ ∀ p, p ∈ names ↔ (∃ r, r ∈ reactions ∧ p ∈ r.2) ∧ rtw !! p = None.
Proof.
  intros (r & p & Hr & Hp & Hnone).
  set (names := merge_sort String.le (elements (missing_parts rtw reactions))).
  assert (Hperm : names ≡ₚ elements (missing_parts rtw reactions))
    by apply merge_sort_Permutation.
  exists names. split_and!.
  - apply build_dispense_rows_missing. intros Hempty.
    assert (p ∈ missing_parts rtw reactions) as Hin; [|by rewrite Hempty in Hin].
    apply elem_of_missing_parts. split; [by exists r|done].
  - apply StronglySorted_merge_sort; apply _.
  - rewrite Hperm. apply NoDup_elements.
  - intros q. by rewrite Hperm, elem_of_elements, elem_of_missing_parts.
Qed.

Lemma build_dispense_rows_missing_reagents_witness :
  ∃ names,
    build_dispense_rows {["R" := ["A1"]]} (Float.of_int 10)
      (Float.of_binary 1 (-1)) "A1" "Mastermix"
      [("B1", ["Q"; "R"]); ("B2", replicate 21 "P")] (Locals ∅ [])
    = raise (ValueError (PartsNotOnSourcePlate names))
    ∧ StronglySorted String.le names
    ∧ NoDup names
    ∧ ∀ p, p ∈ names
        ↔ (∃ r, r ∈ [("B1", ["Q"; "R"]); ("B2", replicate 21 "P")] ∧ p ∈ r.2)
          ∧ ({["R" := ["A1"]]} : gmap string (list string)) !! p = None.
Proof.
  apply build_dispense_rows_missing_reagents.
  exists ("B1", ["Q"; "R"]), "Q". split_and!.
  - by left.
  - by left.
  - reflexivity.
Defined.

(** The names reported for that run, computed. *)
Example build_dispense_rows_missing_reagents_example :
  call (build_dispense_rows {["R" := ["A1"]]} (Float.of_int 10)
          (Float.of_binary 1 (-1)) "A1" "Mastermix"
          [("B1", ["Q"; "R"]); ("B2", replicate 21 "P")]) (Locals ∅ [])
  = raise (ValueError (PartsNotOnSourcePlate ["P"; "Q"])).
Proof. vm_compute. reflexivity. Qed.

(** C7: a run of the planner depends on its arguments only.  Its locals are
    assigned before they are read, so the result (and even the storage it
    leaves) is the same from any initial contents of the frame; two calls in
    a row on the same arguments, the second starting from what the first
    left behind, return the same rows or fail with the same exception. *)
Theorem build_dispense_rows_deterministic
    (rtw : gmap string (list string)) (V d : float) (mmw mmn : string)
    (reactions : list reaction) (frame1 frame2 : locals) :
  build_dispense_rows rtw V d mmw mmn reactions frame1
  = build_dispense_rows rtw V d mmw mmn reactions frame2
  ∧ call (rows1 <- build_dispense_rows rtw V d mmw mmn reactions ;;
          rows2 <- build_dispense_rows rtw V d mmw mmn reactions ;;
          ret (rows1, rows2)) frame1
    = rbind (call (build_dispense_rows rtw V d mmw mmn reactions) frame2)
            (λ rws, ok (rws, rws)).
Proof.
  assert (Hframe : ∀ f1 f2,
    build_dispense_rows rtw V d mmw mmn reactions f1
    = build_dispense_rows rtw V d mmw mmn reactions f2).
  { intros f1 f2.
    destruct (decide (missing_parts rtw reactions = ∅)) as [Hmiss|Hmiss].
    - by rewrite !build_dispense_rows_loop.
    - by rewrite !build_dispense_rows_missing. }
  split; [apply Hframe|].
  unfold call, bind. rewrite (Hframe frame1 frame2).
  destruct (build_dispense_rows rtw V d mmw mmn reactions frame2)
    as [e|[rws st]] eqn:Hrun; [done|].
  by rewrite (Hframe st frame2), Hrun.
Qed.

Lemma blocks_of_sources rtw V d mmw mmn (reactions : list reaction)
    (srcss : list (list string)) :
  Forall2 (λ r srcs, sources_for rtw r.2 srcs) reactions srcss →
  Forall2 (λ r blk, ∃ srcs, sources_for rtw r.2 srcs
                          ∧ blk = block V d mmw mmn r srcs)
          reactions (zip_with (block V d mmw mmn) reactions srcss).
Proof.
  induction 1 as [|r srcs rs srcss Hr _ IH]; simpl; constructor; [|done].
  by exists srcs.
Qed.

(** C1: the filler volume of a reaction with [n] parts is
    [round(V - n * d, 4)].  In a run whose parts are all declared: the first
    reaction for which it is negative makes the run fail with the
    volume-exceeded error naming that reaction's target well, its part
    count, [d] and [V], and nothing is returned; when it is negative for no
    reaction, the run returns one block of rows per reaction, which ends
    with exactly one filler row [(mm_well, target, filler volume, mm_name)]
    when the filler volume is positive and with no filler row otherwise (in
    particular when it is zero). *)
Theorem build_dispense_rows_filler
    (rtw : gmap string (list string)) (V d : float) (mmw mmn : string)
    (reactions : list reaction) (frame : locals) :
  declared rtw (concat (snd <$> reactions)) →
  (∀ n, mm_vol V d n
        = Float.round
            (Float.sub V (Float.mul (Float.of_int (Z.of_nat n)) d)) 4) ∧
  (∀ pre r post,
     reactions = pre ++ r :: post →
     Forall (λ r', Float.ltb (mm_vol V d (length r'.2)) (Float.of_int 0)
                   = false) pre →
     Float.ltb (mm_vol V d (length r.2)) (Float.of_int 0) = true →
     build_dispense_rows rtw V d mmw mmn reactions frame
     = raise (ValueError (VolumeExceeded r.1 (length r.2) d
                (Float.mul (Float.of_int (Z.of_nat (length r.2))) d) V))) ∧
  (Forall (λ r, Float.ltb (mm_vol V d (length r.2)) (Float.of_int 0) = false)
          reactions →
   ∃ blocks st',
     build_dispense_rows rtw V d mmw mmn reactions frame
     = ok (concat blocks, st')
     ∧ Forall2 (λ r blk, ∃ srcs,
         length srcs = length r.2
         ∧ blk = part_rows d r.1 srcs r.2 ++
                 if Float.ltb (Float.of_int 0) (mm_vol V d (length r.2))
                 then [(mmw, r.1, mm_vol V d (length r.2), mmn)]
                 else []) reactions blocks).
Proof.
  intros Hdecl. split_and!; [done|..].
  - intros pre r post -> Hpre Hr.
    rewrite fmap_app, concat_app in Hdecl.
    pose proof Hdecl as [Hdpre _]%declared_app.
    destruct (choose_all_ok rtw ∅ _ Hdpre) as (srcs & usage & Hch).
    eapply build_dispense_rows_exceeds; [|done..].
    apply declared_missing_parts. by rewrite fmap_app, concat_app.
  - intros Hvol.
    destruct (choose_all_ok rtw ∅ _ Hdecl) as (srcs & usage & Hch).
    destruct (build_dispense_rows_ok rtw V d mmw mmn reactions frame srcs usage)
      as (rws & st' & Hrun); [by apply declared_missing_parts|done..|].
    pose proof Hrun as (_ & srcss & Hsrc & _ & _ & -> & _)%build_dispense_rows_inv.
    eexists _, st'. split; [exact Hrun|].
    eapply Forall2_impl; [by apply blocks_of_sources|].
    intros r blk (srcs' & Hs & ->). exists srcs'.
    split; [by eapply sources_for_length|done].
Qed.

(** C5: the rows returned by the planner are the blocks of the reactions,
    in the order of the reactions; the block of a reaction has one row per
    part, in the order of its part list, each from a well declared for that
    part, to the reaction's target, with volume [d] and the part's name;
    the filler row, when there is one, comes last in the block. *)
Theorem build_dispense_rows_order
    (rtw : gmap string (list string)) (V d : float) (mmw mmn : string)
    (reactions : list reaction) (frame : locals)
    (rws : list row) (st' : locals) :
  build_dispense_rows rtw V d mmw mmn reactions frame = ok (rws, st') →
  ∃ blocks,
    rws = concat blocks
    ∧ Forall2 (λ r blk, ∃ srcs,
        Forall2 (λ src part, ∃ wells, rtw !! part = Some wells ∧ src ∈ wells)
                srcs r.2
        ∧ blk = zip_with (λ src part, (src, r.1, d, part)) srcs r.2
                ++ filler_rows V d mmw mmn r.1 (length r.2)) reactions blocks.
Proof.
  intros (_ & srcss & Hsrc & _ & _ & -> & _)%build_dispense_rows_inv.
  eexists. split; [reflexivity|].
  eapply Forall2_impl; [by apply blocks_of_sources|].
  intros r blk (srcs & Hs & ->). exists srcs.
  split; [by apply sources_for_declared|done].
Qed.

Lemma choose_all_picks rtw usage parts srcs usage' :
  choose_all rtw usage parts = ok (srcs, usage') →
  picks rtw usage parts srcs usage'.
Proof.
  revert usage srcs. induction parts as [|p ps IH]; intros usage srcs; simpl.
  - intros [= <- <-]. constructor.
  - destruct (choose rtw usage p) as [|[src u1]] eqn:Hp; [done|]. simpl.
    destruct (choose_all rtw u1 ps) as [|[srcs1 u2]] eqn:Hps; [done|].
    intros [= <- <-].
    apply choose_inv in Hp as (wells & Hwells & Hbest & ->).
    econstructor; [done..|]. by apply IH.
Qed.

Lemma sources_lengths rtw (reactions : list reaction) (srcss : list (list string)) :
  Forall2 (λ r srcs, sources_for rtw r.2 srcs) reactions srcss →
  Forall2 (λ r srcs, length srcs = length r.2) reactions srcss.
Proof.
  intros H. eapply Forall2_impl; [exact H|].
  intros r srcs. apply sources_for_length.
Qed.

(** C2: every selection made by [pick_source_well] is least-used-first on
    the counter of the run, earliest declared well on ties, and adds one to
    the count of the chosen well; the sources of the rows of a run are the
    result of such selections, made for the parts of the reactions in order,
    starting from an empty counter. *)
Theorem build_dispense_rows_least_used_first
    (rtw : gmap string (list string)) (V d : float) (mmw mmn : string)
    (reactions : list reaction) (frame : locals)
    (rws : list row) (st' : locals) :
  build_dispense_rows rtw V d mmw mmn reactions frame = ok (rws, st') →
  (∀ reagent st best st1,
     pick_source_well rtw reagent st = ok (best, st1) →
     ∃ wells, rtw !! reagent = Some wells
            ∧ least_used_first (usage_get (well_usage st)) wells best
            ∧ well_usage st1
              = <[best := (usage_get (well_usage st) best + 1)%nat]>
                  (well_usage st)) ∧
  ∃ srcss,
    Forall2 (λ r srcs, length srcs = length r.2) reactions srcss
    ∧ rws = concat (zip_with (block V d mmw mmn) reactions srcss)
    ∧ picks rtw ∅ (concat (snd <$> reactions)) (concat srcss) (well_usage st').
Proof.
  intros (_ & srcss & Hsrc & _ & Hch & -> & _)%build_dispense_rows_inv. split.
  - intros reagent st best st1. rewrite pick_source_well_choose.
    destruct (choose rtw (well_usage st) reagent) as [|[b u]] eqn:Hp; [done|].
    simpl. intros [= <- <-].
    apply choose_inv in Hp as (wells & ? & ? & ->). by exists wells.
  - exists srcss. split_and!; [by eapply sources_lengths|done|].
    by apply choose_all_picks.
Qed.

Lemma concat_inj_lengths {A} (l1 l2 : list (list A)) :
  Forall2 (λ a b, length a = length b) l1 l2 →
  concat l1 = concat l2 → l1 = l2.
Proof.
  induction 1 as [|a b l1 l2 Hlen _ IH]; simpl; [done|].
  intros [-> Heq]%app_inj_1; [|done]. f_equal. by apply IH.
Qed.

(** C10: the usage counter is changed by the selections alone.  Appending a
    row leaves it as it is; after a reaction it is what the picks for the
    parts of that reaction made it, filler row or not; at the end of a run
    the count of every well, the mastermix well included, is the number of
    part rows drawn from it.  So the sources chosen, and the final counter,
    are the same under any other choice of the volumes and of the mastermix
    well and name for which the run returns. *)
Theorem filler_rows_leave_usage
    (rtw : gmap string (list string)) (V d : float) (mmw mmn : string)
    (reactions : list reaction) (frame : locals)
    (rws : list row) (st' : locals) :
  build_dispense_rows rtw V d mmw mmn reactions frame = ok (rws, st') →
  (∀ r st, ∃ st1, rows_append r st = ok (tt, st1)
                ∧ well_usage st1 = well_usage st) ∧
  (∀ r st st1,
     dispense_reaction rtw V d mmw mmn r st = ok (tt, st1) →
     ∃ srcs, choose_all rtw (well_usage st) r.2 = ok (srcs, well_usage st1)) ∧
  ∃ srcss,
    Forall2 (λ r srcs, length srcs = length r.2) reactions srcss
    ∧ rws = concat (zip_with (block V d mmw mmn) reactions srcss)
    ∧ choose_all rtw ∅ (concat (snd <$> reactions))
      = ok (concat srcss, well_usage st')
    ∧ (∀ w, usage_get (well_usage st') w = times_picked w (concat srcss))
    ∧ (∀ V2 d2 mmw2 mmn2 frame2 rws2 st2,
         build_dispense_rows rtw V2 d2 mmw2 mmn2 reactions frame2
         = ok (rws2, st2) →
         well_usage st2 = well_usage st'
         ∧ rws2 = concat (zip_with (block V2 d2 mmw2 mmn2) reactions srcss)).
Proof.
  intros (_ & srcss & Hsrc & _ & Hch & -> & _)%build_dispense_rows_inv.
  apply sources_lengths in Hsrc. split_and!.
  - intros r st. by eexists.
  - intros r st st1. rewrite dispense_reaction_run.
    destruct (exceeds V d r); [done|].
    destruct (choose_all rtw (well_usage st) r.2) as [|[srcs u]]; [done|].
    simpl. intros [= <-]. by exists srcs.
  - exists srcss. split_and!; [done..| |].
    + intros w. by rewrite (choose_all_counts _ _ _ _ _ w Hch).
    + intros V2 d2 mmw2 mmn2 frame2 rws2 st2
        (_ & srcss2 & Hsrc2 & _ & Hch2 & -> & _)%build_dispense_rows_inv.
      apply sources_lengths in Hsrc2.
      rewrite Hch in Hch2. injection Hch2 as Hsrcs Husage.
      assert (srcss = srcss2) as <-; [|done].
      apply concat_inj_lengths; [|done].
      clear -Hsrc Hsrc2. revert srcss2 Hsrc2.
      induction Hsrc as [|r s rs ss Hr _ IH]; intros srcss2; inv 1;
        constructor; [congruence|by apply IH].
Qed.

(** ** The examples of the specification *)

Lemma build_dispense_rows_filler_witness :
  mm_vol ten half 3 = eight_and_half
  ∧ Float.ltb (Float.of_int 0) (mm_vol ten half 3) = true
  ∧ mm_vol ten half 20 = Float.zero
  ∧ build_dispense_rows example_rtw ten half "H12" "Mastermix"
      [("B1", replicate 3 "R"); ("B2", replicate 20 "R");
       ("B3", replicate 21 "R")] (Locals ∅ [])
    = raise (ValueError (VolumeExceeded "B3" 21 half
               (Float.mul (Float.of_int 21) half) ten))
  ∧ ∃ blocks st',
      build_dispense_rows example_rtw ten half "H12" "Mastermix"
        [("B1", replicate 3 "R"); ("B2", replicate 20 "R")] (Locals ∅ [])
      = ok (concat blocks, st')
      ∧ length <$> blocks = [4; 20]%nat.
Proof.
  split_and!; [vm_compute; reflexivity..| |].
  - assert (Hdecl : declared example_rtw (concat (snd <$>
      [("B1", replicate 3 "R"); ("B2", replicate 20 "R");
       ("B3", replicate 21 "R")]))) by declared_example.
    destruct (build_dispense_rows_filler example_rtw ten half "H12" "Mastermix"
      _ (Locals ∅ []) Hdecl) as (_ & Hfail & _).
    apply (Hfail [("B1", replicate 3 "R"); ("B2", replicate 20 "R")]
                 ("B3", replicate 21 "R") []);
      [reflexivity|volumes_fit|vm_compute; reflexivity].
  - assert (Hdecl : declared example_rtw (concat (snd <$>
      [("B1", replicate 3 "R"); ("B2", replicate 20 "R")])))
      by declared_example.
    destruct (build_dispense_rows_filler example_rtw ten half "H12" "Mastermix"
      _ (Locals ∅ []) Hdecl) as (_ & _ & Hok).
    assert (Hvol : Forall (λ r : reaction,
      Float.ltb (mm_vol ten half (length r.2)) (Float.of_int 0) = false)
      [("B1", replicate 3 "R"); ("B2", replicate 20 "R")]) by volumes_fit.
    destruct (Hok Hvol) as (blocks & st' & Hrun & Hblocks).
    exists blocks, st'. split; [exact Hrun|].
    apply Forall2_cons_inv_l in Hblocks
      as (b1 & blocks1 & (s1 & Hs1 & ->) & Hblocks & ->).
    apply Forall2_cons_inv_l in Hblocks
      as (b2 & blocks2 & (s2 & Hs2 & ->) & Hblocks & ->).
    apply Forall2_nil_inv_l in Hblocks as ->.
    unfold part_rows. simpl in *.
    rewrite !length_app, !length_zip_with, Hs1, Hs2. reflexivity.
Defined.

(** The rows of that run, computed: three parts and a filler of 8.5 uL for
    B1, twenty parts and no filler for B2. *)
Example build_dispense_rows_filler_example :
  call (build_dispense_rows example_rtw ten half "H12" "Mastermix"
          [("B1", replicate 3 "R"); ("B2", replicate 20 "R")]) (Locals ∅ [])
  = ok ([("A1", "B1", half, "R"); ("A2", "B1", half, "R");
         ("A1", "B1", half, "R"); ("H12", "B1", eight_and_half, "Mastermix")]
        ++ zip_with (λ src part, (src, "B2", half, part))
             (concat (replicate 10 ["A2"; "A1"])) (replicate 20 "R")).
Proof. vm_compute. reflexivity. Qed.

Lemma build_dispense_rows_order_witness :
  ∃ blocks,
    [("A1", "B1", half, "R"); ("H12", "B1", nine_and_half, "Mastermix");
     ("A2", "B2", half, "R"); ("H12", "B2", nine_and_half, "Mastermix");
     ("A1", "B3", half, "R"); ("H12", "B3", nine_and_half, "Mastermix")]
    = concat blocks
    ∧ Forall2 (λ (r : reaction) blk, ∃ srcs,
        Forall2 (λ src part, ∃ wells, example_rtw !! part = Some wells
                                      ∧ src ∈ wells) srcs r.2
        ∧ blk = zip_with (λ src part, (src, r.1, half, part)) srcs r.2
                ++ filler_rows ten half "H12" "Mastermix" r.1 (length r.2))
        example_reactions blocks.
Proof.
  apply (build_dispense_rows_order example_rtw ten half "H12" "Mastermix"
           example_reactions (Locals ∅ []) _
           (Locals {["A1" := 2%nat; "A2" := 1%nat]}
              [("A1", "B1", half, "R"); ("H12", "B1", nine_and_half, "Mastermix");
               ("A2", "B2", half, "R"); ("H12", "B2", nine_and_half, "Mastermix");
               ("A1", "B3", half, "R"); ("H12", "B3", nine_and_half, "Mastermix")])).
  vm_compute. reflexivity.
Defined.

(** "R" at A1 and A2, used once by each of three reactions: the sources are
    A1, A2, A1 and the counts are left at 2 and 1. *)
Example load_balancing_example :
  build_dispense_rows example_rtw ten half "H12" "Mastermix"
    example_reactions (Locals ∅ [])
  = ok ([("A1", "B1", half, "R"); ("H12", "B1", nine_and_half, "Mastermix");
         ("A2", "B2", half, "R"); ("H12", "B2", nine_and_half, "Mastermix");
         ("A1", "B3", half, "R"); ("H12", "B3", nine_and_half, "Mastermix")],
        Locals {["A1" := 2%nat; "A2" := 1%nat]}
          [("A1", "B1", half, "R"); ("H12", "B1", nine_and_half, "Mastermix");
           ("A2", "B2", half, "R"); ("H12", "B2", nine_and_half, "Mastermix");
           ("A1", "B3", half, "R"); ("H12", "B3", nine_and_half, "Mastermix")]).
Proof. vm_compute. reflexivity. Qed.

Lemma build_dispense_rows_least_used_first_witness :
  ∃ srcss,
    Forall2 (λ (r : reaction) srcs, length srcs = length r.2)
            example_reactions srcss
    ∧ [("A1", "B1", half, "R"); ("H12", "B1", nine_and_half, "Mastermix");
       ("A2", "B2", half, "R"); ("H12", "B2", nine_and_half, "Mastermix");
       ("A1", "B3", half, "R"); ("H12", "B3", nine_and_half, "Mastermix")]
      = concat (zip_with (block ten half "H12" "Mastermix")
                         example_reactions srcss)
    ∧ picks example_rtw ∅ (concat (snd <$> example_reactions)) (concat srcss)
            {["A1" := 2%nat; "A2" := 1%nat]}.
Proof.
  refine (proj2 (build_dispense_rows_least_used_first example_rtw ten half
            "H12" "Mastermix" example_reactions (Locals ∅ [])
            [("A1", "B1", half, "R"); ("H12", "B1", nine_and_half, "Mastermix");
             ("A2", "B2", half, "R"); ("H12", "B2", nine_and_half, "Mastermix");
             ("A1", "B3", half, "R"); ("H12", "B3", nine_and_half, "Mastermix")]
            (Locals {["A1" := 2%nat; "A2" := 1%nat]} _) _)).
  vm_compute. reflexivity.
Defined.

(** The mastermix well is A1, which is also the first well of "R": the five
    rows drawn from A1 include three filler rows, yet the count of A1 is 2
    and the second reaction is served from A2. *)
Example shared_well_example :
  build_dispense_rows example_rtw ten half "A1" "Mastermix"
    example_reactions (Locals ∅ [])
  = ok ([("A1", "B1", half, "R"); ("A1", "B1", nine_and_half, "Mastermix");
         ("A2", "B2", half, "R"); ("A1", "B2", nine_and_half, "Mastermix");
         ("A1", "B3", half, "R"); ("A1", "B3", nine_and_half, "Mastermix")],
        Locals {["A1" := 2%nat; "A2" := 1%nat]}
          [("A1", "B1", half, "R"); ("A1", "B1", nine_and_half, "Mastermix");
           ("A2", "B2", half, "R"); ("A1", "B2", nine_and_half, "Mastermix");
           ("A1", "B3", half, "R"); ("A1", "B3", nine_and_half, "Mastermix")]).
Proof. vm_compute. reflexivity. Qed.

Lemma filler_rows_leave_usage_witness :
  ∃ srcss,
    Forall2 (λ (r : reaction) srcs, length srcs = length r.2)
            example_reactions srcss
    ∧ [("A1", "B1", half, "R"); ("A1", "B1", nine_and_half, "Mastermix");
       ("A2", "B2", half, "R"); ("A1", "B2", nine_and_half, "Mastermix");
       ("A1", "B3", half, "R"); ("A1", "B3", nine_and_half, "Mastermix")]
      = concat (zip_with (block ten half "A1" "Mastermix")
                         example_reactions srcss)
    ∧ choose_all example_rtw ∅ (concat (snd <$> example_reactions))
      = ok (concat srcss, {["A1" := 2%nat; "A2" := 1%nat]})
    ∧ (∀ w, usage_get {["A1" := 2%nat; "A2" := 1%nat]} w
            = times_picked w (concat srcss))
    ∧ (∀ V2 d2 mmw2 mmn2 frame2 rws2 st2,
         build_dispense_rows example_rtw V2 d2 mmw2 mmn2 example_reactions
           frame2 = ok (rws2, st2) →
         well_usage st2 = {["A1" := 2%nat; "A2" := 1%nat]}
         ∧ rws2 = concat (zip_with (block V2 d2 mmw2 mmn2)
                                   example_reactions srcss)).
Proof.
  refine (proj2 (proj2 (filler_rows_leave_usage example_rtw ten half
            "A1" "Mastermix" example_reactions (Locals ∅ [])
            [("A1", "B1", half, "R"); ("A1", "B1", nine_and_half, "Mastermix");
             ("A2", "B2", half, "R"); ("A1", "B2", nine_and_half, "Mastermix");
             ("A1", "B3", half, "R"); ("A1", "B3", nine_and_half, "Mastermix")]
            (Locals {["A1" := 2%nat; "A2" := 1%nat]} _) _))).
  vm_compute. reflexivity.
Defined.


(** * Further properties of the code *)

(** ** Well names and their sort key *)

Lemma digits_string_of_uint (d : Decimal.uint) (acc n : Z) :
  Py.digits (NilEmpty.string_of_uint d) acc n false
  = Some (uint_value d acc,
          n + Z.of_nat (String.length (NilEmpty.string_of_uint d)),
          EmptyString).
Proof.
  revert acc n.
  induction d as [|d IH|d IH|d IH|d IH|d IH|d IH|d IH|d IH|d IH|d IH];
    intros acc n;
    [cbn; by rewrite Z.add_0_r|..];
    cbn [NilEmpty.string_of_uint Py.digits Ascii.is_nat String.length
         uint_value];
    rewrite IH, Nat2Z.inj_succ;
    (apply f_equal, f_equal2; [apply f_equal2; [|lia]|done]);
    apply f_equal; cbn; lia.
Qed.

Lemma of_uint_acc_value (d : Decimal.uint) (acc : positive) :
  Z.pos (Pos.of_uint_acc d acc) = uint_value d (Z.pos acc).
Proof.
  revert acc. induction d; intros acc; simpl; [done|..];
    rewrite IHd; f_equal; lia.
Qed.

Lemma of_uint_value (d : Decimal.uint) : Z.of_uint d = uint_value d 0.
Proof.
  unfold Z.of_uint.
  induction d; simpl; try done; try apply of_uint_acc_value.
Qed.

(** The decimal text of a number starts with a digit. *)
Lemma string_of_uint_head (d : Decimal.uint) :
  ∃ c s' k, NilZero.string_of_uint d = String c s'
            ∧ Ascii.is_nat c = Some k.
Proof. destruct d; eexists _, _, _; (split; [reflexivity|reflexivity]). Qed.

(** [int] on a text that starts with a digit, with or without a minus
    sign before it. *)
Lemma int_unsigned (c : ascii) (s' : string) (k : nat) :
  Ascii.is_nat c = Some k →
  Py.int (String c s')
  = Py.int_run (String c s') false (Py.digits (String c s') 0 0 false).
Proof.
  intros Hc.
  destruct c as [[] [] [] [] [] [] [] []]; try discriminate Hc; reflexivity.
Qed.

Lemma int_negative (c : ascii) (s' : string) (k : nat) :
  Ascii.is_nat c = Some k →
  Py.int (String "-" (String c s'))
  = Py.int_run (String "-" (String c s')) true
               (Py.digits (String c s') 0 0 false).
Proof.
  intros Hc.
  destruct c as [[] [] [] [] [] [] [] []]; try discriminate Hc; reflexivity.
Qed.

Lemma int_run_string_of_uint (d : Decimal.uint) (s : string) (neg : bool) :
  Py.int_run s neg (Py.digits (NilZero.string_of_uint d) 0 0 false)
  = if Py.int_max_str_digits
       <? Z.of_nat (String.length (NilZero.string_of_uint d))
    then raise (ValueError (ExceedsMaxStrDigits Py.int_max_str_digits
                  (Z.of_nat (String.length (NilZero.string_of_uint d)))))
    else ok (if neg then - Z.of_uint d else Z.of_uint d).
Proof.
  assert (Hrun : Py.digits (NilZero.string_of_uint d) 0 0 false
                 = Some (Z.of_uint d,
                         Z.of_nat (String.length (NilZero.string_of_uint d)),
                         EmptyString)).
  { rewrite of_uint_value. unfold NilZero.string_of_uint.
    destruct d; [reflexivity|..]; by rewrite digits_string_of_uint. }
  rewrite Hrun. unfold Py.int_run.
  destruct (_ <? _); [done|].
  assert (Hlen : Z.of_nat (String.length (NilZero.string_of_uint d)) ≠ 0).
  { destruct (string_of_uint_head d) as (c & s' & k & -> & _).
    cbn [String.length]. lia. }
  apply Z.eqb_neq in Hlen. by rewrite Hlen.
Qed.

(** Reading back a printed integer: [int(str(z))] is [z] when the text has
    no more digits than the limit, and is refused otherwise. *)
Lemma int_str_of_int (z : Z) :
  Py.int (Py.str_of_int z)
  = if Py.int_max_str_digits <? decimal_digits z
    then raise (ValueError (ExceedsMaxStrDigits Py.int_max_str_digits
                              (decimal_digits z)))
    else ok z.
Proof.
  assert (Hval : ∀ p, Z.of_uint (Pos.to_uint p) = Z.pos p).
  { intros p. apply (DecimalZ.of_to (Z.pos p)). }
  unfold decimal_digits, Py.str_of_int.
  destruct z as [|p|p]; [reflexivity|..]; cbn [Z.abs Z.to_int];
    cbn [NilZero.string_of_int];
    destruct (string_of_uint_head (Pos.to_uint p)) as (c & s' & k & Hs & Hc).
  - rewrite Hs at 1. rewrite (int_unsigned c s' k Hc), <- Hs.
    by rewrite int_run_string_of_uint, Hval.
  - rewrite Hs at 1. rewrite (int_negative c s' k Hc), <- Hs.
    by rewrite int_run_string_of_uint, Hval.
Qed.

Lemma int_outcomes (s : string) :
  match Py.int s with
  | inr _ => True
  | inl e =>
      e = ValueError (InvalidIntLiteral s)
      ∨ ∃ n, Py.int_max_str_digits < n
             ∧ e = ValueError (ExceedsMaxStrDigits Py.int_max_str_digits n)
  end.
Proof.
  assert (Hrun : ∀ neg run,
            match Py.int_run s neg run with
            | inr _ => True
            | inl e =>
                e = ValueError (InvalidIntLiteral s)
                ∨ ∃ n, Py.int_max_str_digits < n
                       ∧ e = ValueError
                               (ExceedsMaxStrDigits Py.int_max_str_digits n)
            end).
  { intros neg [[[z n] rest]|]; unfold Py.int_run; [|by left].
    destruct (Z.ltb_spec Py.int_max_str_digits n); [right; by exists n|].
    destruct (n =? 0); [by left|].
    destruct (Py.skip_int_space rest); [done|by left]. }
  unfold Py.int.
  match goal with
  | |- context [(match Py.skip_int_space s with _ => _ end).1] =>
      generalize (match Py.skip_int_space s with
                  | String "-" s' => (true, s')
                  | String "+" s' => (false, s')
                  | s' => (false, s')
                  end)
  end.
  intros [neg [|c lit]]; cbn [fst snd]; [apply Hrun|].
  destruct c as [[] [] [] [] [] [] [] []]; first [apply Hrun|by left].
Qed.

(** X1: the sort key of a well name written as a row letter followed by
    the decimal text of a column number is (column, index of the row
    letter), whether the letter is in upper or lower case, for every
    integer column whose text has at most 4300 digits: the key does not
    check the column against the plate.  A column of more digits is
    refused by [int] with ValueError, the limit on integer texts. *)
Theorem well_sort_key_formatted (r : ascii) (c : Z) (i : nat) :
  list_ascii_of_string ROWS_96 !! i = Some (Py.upper r) →
  (decimal_digits c ≤ Py.int_max_str_digits →
   well_sort_key (String r (Py.str_of_int c)) = ok (c, i))
  ∧ (Py.int_max_str_digits < decimal_digits c →
     well_sort_key (String r (Py.str_of_int c))
     = raise (ValueError (ExceedsMaxStrDigits Py.int_max_str_digits
                            (decimal_digits c)))).
Proof.
  intros Hi. unfold well_sort_key. rewrite int_str_of_int.
  destruct (Z.ltb_spec Py.int_max_str_digits (decimal_digits c)) as [Hlt|Hle].
  - split; [lia|done].
  - split; [intros _|lia]. cbn [rbind].
    assert (Hlt : (i < 8)%nat) by (by apply lookup_lt_Some in Hi).
    destruct i as [|[|[|[|[|[|[|[|?]]]]]]]]; [..|lia];
      simpl in Hi; injection Hi as <-; reflexivity.
Qed.

Lemma well_sort_key_formatted_witness :
  well_sort_key (String "c" (Py.str_of_int 40)) = ok (40, 2%nat)
  ∧ Py.int_max_str_digits < decimal_digits (10 ^ 4300)
  ∧ well_sort_key (String "A" (Py.str_of_int (10 ^ 4300)))
    = raise (ValueError (ExceedsMaxStrDigits Py.int_max_str_digits
                           (decimal_digits (10 ^ 4300)))).
Proof.
  split; [|split].
  - apply (well_sort_key_formatted "c" 40 2); [reflexivity|].
    vm_compute. discriminate.
  - vm_compute. reflexivity.
  - apply (well_sort_key_formatted "A" (10 ^ 4300) 0); [reflexivity|].
    vm_compute. reflexivity.
Defined.

Lemma index_outcomes (s : string) (c : ascii) :
  match Py.index s c with
  | inr i => (i < String.length s)%nat
  | inl e => e = ValueError SubstringNotFound
  end.
Proof.
  induction s as [|c' s IH]; simpl; [done|].
  destruct (bool_decide (c' = c)); simpl; [lia|].
  destruct (Py.index s c); simpl; [done|lia].
Qed.

(** X2: [well_sort_key] raises IndexError exactly on the empty string; on
    any other string it either returns a key whose row index is below 8, or
    raises ValueError: the one [int] raises for the text after the first
    character, when that is not an integer literal or has more digits than
    the limit of 4300, and otherwise the one of [index] for a row letter
    outside A..H. *)
Theorem well_sort_key_outcomes (well : string) :
  match well_sort_key well with
  | inr (col, i) =>
      (i < 8)%nat ∧ ∃ c rest, well = String c rest ∧ Py.int rest = ok col
  | inl IndexError => well = ""
  | inl (ValueError (InvalidIntLiteral s)) =>
      ∃ c, well = String c s
           ∧ Py.int s = raise (ValueError (InvalidIntLiteral s))
  | inl (ValueError (ExceedsMaxStrDigits limit n)) =>
      limit = Py.int_max_str_digits ∧ limit < n
      ∧ ∃ c rest, well = String c rest
                  ∧ Py.int rest
                    = raise (ValueError (ExceedsMaxStrDigits limit n))
  | inl (ValueError SubstringNotFound) =>
      ∃ c rest col, well = String c rest ∧ Py.int rest = ok col
                    ∧ Py.index ROWS_96 (Py.upper c)
                      = raise (ValueError SubstringNotFound)
  | inl _ => False
  end.
Proof.
  destruct well as [|c rest]; [done|]. unfold well_sort_key.
  pose proof (int_outcomes rest) as Hint.
  destruct (Py.int rest) as [e|col] eqn:Hcol; cbn [rbind].
  - destruct Hint as [->|(n & Hn & ->)].
    + by exists c.
    + split; [done|]. split; [done|]. by exists c, rest.
  - pose proof (index_outcomes ROWS_96 (Py.upper c)) as Hidx.
    destruct (Py.index ROWS_96 (Py.upper c)) as [e|i] eqn:Hrow; cbn [rbind].
    + subst e. eexists _, _, _. split_and!; [reflexivity|done..].
    + split; [exact Hidx|]. eexists _, _. split; [reflexivity|done].
Qed.

(** ** WellGrid: stability of the enumeration *)

(** X3: the targets of a smaller count are the first targets of a larger
    one: asking for more wells never moves the wells already assigned. *)
Theorem generate_target_wells_prefix (m n : Z) :
  0 ≤ m ≤ n → n ≤ 96 →
  ∃ wells_m wells_n,
    generate_target_wells m = ok wells_m
    ∧ generate_target_wells n = ok wells_n
    ∧ wells_m = take (Z.to_nat m) wells_n.
Proof.
  intros Hm Hn.
  exists (take (Z.to_nat m) all_wells), (take (Z.to_nat n) all_wells).
  split_and!.
  - rewrite <- (Z2Nat.id m) at 1 by lia.
    apply generate_target_wells_in_range. lia.
  - rewrite <- (Z2Nat.id n) at 1 by lia.
    apply generate_target_wells_in_range. lia.
  - rewrite take_take. f_equal. lia.
Qed.

Lemma generate_target_wells_prefix_witness :
  ∃ wells_m wells_n,
    generate_target_wells 3 = ok wells_m
    ∧ generate_target_wells 10 = ok wells_n
    ∧ wells_m = take (Z.to_nat 3) wells_n.
Proof. apply generate_target_wells_prefix; lia. Defined.

(** ** ReactionExpander: what a combinatorial expansion returns *)

Lemma build_combinatorial_reactions_inv common_parts groups reactions :
  build_combinatorial_reactions common_parts groups = ok reactions →
  groups ≠ []
  ∧ (length (lex_product groups) ≤ 96)%nat
  ∧ reactions
    = zip_with (λ target combo, (target, combo ++ common_parts))
        (take (length (lex_product groups)) all_wells) (lex_product groups).
Proof.
  unfold build_combinatorial_reactions. destruct groups as [|g gs]; [done|].
  rewrite product_lex. set (combos := lex_product (g :: gs)).
  destruct (decide (length combos ≤ 96)%nat) as [Hle|Hgt].
  - rewrite generate_target_wells_in_range by done. simpl.
    by intros [= <-].
  - rewrite generate_target_wells_overflow by lia. done.
Qed.

Lemma lex_product_combo_length {A} (groups : list (list A)) (combo : list A) :
  combo ∈ lex_product groups → length combo = length groups.
Proof.
  rewrite elem_of_lex_product. intros H. by apply Forall2_length in H.
Qed.

(** X4: when combinatorial expansion returns, there is one reaction per
    combination (the product of the group sizes), no two reactions share a
    target well, and every reaction has one part per group followed by the
    common parts. *)
Theorem build_combinatorial_reactions_invariants
    (common_parts : list string) (groups : list (list string))
    (reactions : list reaction) :
  build_combinatorial_reactions common_parts groups = ok reactions →
  length reactions = foldr (λ g n, (length g * n)%nat) 1%nat groups
  ∧ NoDup (fst <$> reactions)
  ∧ Forall (λ r, ∃ combo, r.2 = combo ++ common_parts
                        ∧ Forall2 (λ part g, part ∈ g) combo groups)
           reactions.
Proof.
  intros (Hne & Hle & ->)%build_combinatorial_reactions_inv.
  set (combos := lex_product groups) in *.
  assert (Hlen : length (take (length combos) all_wells) = length combos).
  { rewrite length_take, all_wells_length. lia. }
  split_and!.
  - rewrite length_zip_with, Hlen. unfold combos.
    rewrite lex_product_length. lia.
  - rewrite fmap_zip_with_l; [|done|by rewrite Hlen].
    pose proof all_wells_NoDup as Hnd.
    rewrite <- (take_drop (length combos) all_wells) in Hnd.
    by apply NoDup_app in Hnd as [? _].
  - apply Forall_forall. intros r Hr.
    apply elem_of_lookup_zip_with in Hr as (i & t & combo & -> & _ & Hc).
    exists combo. split; [done|].
    apply elem_of_lex_product. by eapply list_elem_of_lookup_2.
Qed.

Lemma build_combinatorial_reactions_invariants_witness :
  ∃ reactions,
    build_combinatorial_reactions ["c"] [["a"; "b"]; ["x"; "y"; "z"]]
    = ok reactions
    ∧ length reactions = 6%nat
    ∧ NoDup (fst <$> reactions).
Proof.
  eexists. split; [vm_compute; reflexivity|].
  match goal with |- length ?rs = _ ∧ _ =>
    destruct (build_combinatorial_reactions_invariants
                ["c"] [["a"; "b"]; ["x"; "y"; "z"]] rs) as (Hlen & Hnd & _)
  end; [vm_compute; reflexivity|].
  split; [exact Hlen|exact Hnd].
Defined.

(** X5: a group without parts is not an error: the product is then empty
    and the expansion returns no reaction at all. *)
Theorem build_combinatorial_reactions_empty_group
    (common_parts : list string) (groups : list (list string)) :
  [] ∈ groups → build_combinatorial_reactions common_parts groups = ok [].
Proof.
  intros Hin.
  assert (Hnil : lex_product groups = []).
  { destruct (lex_product groups) as [|combo combos] eqn:Hprod; [done|].
    assert (Hc : combo ∈ lex_product groups) by (rewrite Hprod; left).
    apply elem_of_lex_product in Hc.
    apply list_elem_of_lookup in Hin as [i Hi].
    destruct (Forall2_lookup_r _ _ _ _ _ Hc Hi) as (x & _ & Hx).
    by apply elem_of_nil in Hx. }
  unfold build_combinatorial_reactions.
  destruct groups as [|g gs]; [by apply elem_of_nil in Hin|].
  rewrite product_lex, Hnil. reflexivity.
Qed.

Lemma build_combinatorial_reactions_empty_group_witness :
  build_combinatorial_reactions ["c"] [["a"; "b"]; []] = ok [].
Proof. apply build_combinatorial_reactions_empty_group. right. left. Defined.

(** ** DispensePlanner: the exceptions of a run *)

Lemma choose_raise rtw usage reagent e :
  choose rtw usage reagent = raise e →
  (rtw !! reagent = None ∧ e = KeyError reagent)
  ∨ (rtw !! reagent = Some [] ∧ e = ValueError MinOfEmptySequence).
Proof.
  unfold choose. destruct (rtw !! reagent) as [[|w wells]|].
  - intros [= <-]. by right.
  - done.
  - intros [= <-]. by left.
Qed.

Lemma choose_all_raise rtw usage parts e :
  choose_all rtw usage parts = raise e →
  ∃ p, p ∈ parts
     ∧ ((rtw !! p = None ∧ e = KeyError p)
        ∨ (rtw !! p = Some [] ∧ e = ValueError MinOfEmptySequence)).
Proof.
  revert usage. induction parts as [|p ps IH]; intros usage; simpl; [done|].
  destruct (choose rtw usage p) as [e1|[src u1]] eqn:Hp; simpl.
  - intros [= <-]. exists p. split; [left|by apply choose_raise in Hp].
  - destruct (choose_all rtw u1 ps) as [e2|[srcs u2]] eqn:Hps; [|done].
    simpl. intros [= <-]. destruct (IH _ Hps) as (q & Hq & Hcase).
    exists q. split; [by right|done].
Qed.

Lemma reactions_loop_raise rtw V d mmw mmn (reactions : list reaction) st e :
  for_each reactions (dispense_reaction rtw V d mmw mmn) st = raise e →
  (∃ r, r ∈ reactions ∧ exceeds V d r = true ∧ e = volume_error V d r)
  ∨ (∃ r p, r ∈ reactions ∧ p ∈ r.2
          ∧ ((rtw !! p = None ∧ e = KeyError p)
             ∨ (rtw !! p = Some [] ∧ e = ValueError MinOfEmptySequence))).
Proof.
  revert st. induction reactions as [|r rs IH]; intros st; simpl; [done|].
  unfold bind at 1. rewrite dispense_reaction_run.
  destruct (exceeds V d r) eqn:Hr.
  { intros [= <-]. left. exists r. split; [left|done]. }
  destruct (choose_all rtw (well_usage st) r.2) as [e1|[srcs u1]] eqn:Hch;
    simpl.
  { intros [= <-]. right. apply choose_all_raise in Hch as (p & Hp & Hcase).
    exists r, p. split; [left|done]. }
  intros [(r' & Hr' & Hrest)|(r' & p & Hr' & Hrest)]%IH.
  - left. exists r'. split; [by right|done].
  - right. exists r', p. split; [by right|done].
Qed.

Lemma build_dispense_rows_raise_cases rtw V d mmw mmn
    (reactions : list reaction) frame e :
  build_dispense_rows rtw V d mmw mmn reactions frame = raise e →
  (∃ names, names ≠ [] ∧ e = ValueError (PartsNotOnSourcePlate names))
  ∨ (∃ r, r ∈ reactions ∧ exceeds V d r = true ∧ e = volume_error V d r)
  ∨ (∃ r p, r ∈ reactions ∧ p ∈ r.2 ∧ rtw !! p = Some []
          ∧ e = ValueError MinOfEmptySequence).
Proof.
  intros Hrun.
  destruct (decide (missing_parts rtw reactions = ∅)) as [Hmiss|Hmiss].
  - rewrite build_dispense_rows_loop in Hrun by done.
    destruct (for_each _ _ _) as [e'|[[] st]] eqn:Hloop; [|done].
    injection Hrun as ->.
    apply reactions_loop_raise in Hloop
      as [(r & Hr & Hex & ->)|(r & p & Hr & Hp & Hcase)].
    + right. left. by exists r.
    + right. right. exists r, p. destruct Hcase as [[Hnone _]|[Hnil ->]]; [|done].
      assert (p ∈ missing_parts rtw reactions) as Hin; [|by rewrite Hmiss in Hin].
      apply elem_of_missing_parts. split; [by exists r|done].
  - rewrite build_dispense_rows_missing in Hrun by done.
    injection Hrun as <-. left. eexists. split; [|reflexivity].
    intros Hnil. apply Hmiss, leibniz_equiv, elements_empty_iff.
    apply Permutation_nil_r. by rewrite <- Hnil, merge_sort_Permutation.
Qed.

(** X6: whatever its arguments, a run of the planner that fails raises one
    of three ValueErrors and nothing else: the missing-parts error, the
    volume error of a reaction that exceeds the volume, or the error of
    [min] on an empty list, which takes a reagent declared with no wells.
    In particular [reagent_to_wells[reagent]] never raises KeyError. *)
Theorem build_dispense_rows_exceptions
    (rtw : gmap string (list string)) (V d : float) (mmw mmn : string)
    (reactions : list reaction) (frame : locals) (e : exn) :
  build_dispense_rows rtw V d mmw mmn reactions frame = raise e →
  (∃ names, names ≠ [] ∧ e = ValueError (PartsNotOnSourcePlate names))
  ∨ (∃ r, r ∈ reactions
        ∧ Float.ltb (mm_vol V d (length r.2)) (Float.of_int 0) = true
        ∧ e = ValueError (VolumeExceeded r.1 (length r.2) d
                (Float.mul (Float.of_int (Z.of_nat (length r.2))) d) V))
  ∨ (∃ r p, r ∈ reactions ∧ p ∈ r.2 ∧ rtw !! p = Some []
          ∧ e = ValueError MinOfEmptySequence).
Proof.
  intros [Hmiss|[(r & Hr & Hex & ->)|Hmin]]%build_dispense_rows_raise_cases.
  - by left.
  - right. left. by exists r.
  - by right; right.
Qed.

Lemma build_dispense_rows_exceptions_witness :
  (∃ names, names ≠ []
          ∧ ValueError (PartsNotOnSourcePlate ["P"; "Q"])
            = ValueError (PartsNotOnSourcePlate names))
  ∨ (∃ r, r ∈ [("B1", ["Q"; "R"]); ("B2", ["P"])]
        ∧ Float.ltb (mm_vol ten half (length r.2)) (Float.of_int 0) = true
        ∧ ValueError (PartsNotOnSourcePlate ["P"; "Q"])
          = ValueError (VolumeExceeded r.1 (length r.2) half
              (Float.mul (Float.of_int (Z.of_nat (length r.2))) half) ten))
  ∨ (∃ r p, r ∈ [("B1", ["Q"; "R"]); ("B2", ["P"])] ∧ p ∈ r.2
          ∧ example_rtw !! p = Some []
          ∧ ValueError (PartsNotOnSourcePlate ["P"; "Q"])
            = ValueError MinOfEmptySequence).
Proof.
  apply (build_dispense_rows_exceptions example_rtw ten half "H12" "Mastermix"
           [("B1", ["Q"; "R"]); ("B2", ["P"])] (Locals ∅ [])).
  vm_compute. reflexivity.
Defined.

(** X7: a reagent that is a key of the map but has no well makes the run
    fail with the ValueError of [min] on an empty list, at the first part
    that needs it: the reactions before it fit the volume and draw from
    declared wells, so does the start of its own reaction, and no part is
    missing from the map. *)
Theorem build_dispense_rows_no_wells
    (rtw : gmap string (list string)) (V d : float) (mmw mmn : string)
    (pre post : list reaction) (target p : string) (ps1 ps2 : list string)
    (frame : locals) :
  missing_parts rtw (pre ++ (target, ps1 ++ p :: ps2) :: post) = ∅ →
  Forall (λ r, Float.ltb (mm_vol V d (length r.2)) (Float.of_int 0) = false)
         (pre ++ [(target, ps1 ++ p :: ps2)]) →
  declared rtw (concat (snd <$> pre) ++ ps1) →
  rtw !! p = Some [] →
  build_dispense_rows rtw V d mmw mmn
    (pre ++ (target, ps1 ++ p :: ps2) :: post) frame
  = raise (ValueError MinOfEmptySequence).
Proof.
  intros Hmiss [Hpre Hr]%Forall_app [Hdpre Hd1]%declared_app Hp.
  apply Forall_cons in Hr as [Hr _].
  rewrite build_dispense_rows_loop by done.
  destruct (choose_all_ok rtw ∅ _ Hdpre) as (srcs & usage & Hch).
  destruct (reactions_loop_ok rtw V d mmw mmn pre (Locals ∅ []) srcs usage
              Hpre Hch) as [st' Hloop].
  rewrite for_each_app. unfold bind at 1. rewrite Hloop.
  unfold ok at 1. cbn beta iota. cbn [for_each].
  unfold bind at 1. rewrite dispense_reaction_run.
  assert (Hex : exceeds V d (target, ps1 ++ p :: ps2) = false) by exact Hr.
  rewrite Hex. cbn [snd]. rewrite choose_all_app.
  destruct (choose_all_ok rtw (well_usage st') _ Hd1) as (srcs1 & u1 & ->).
  simpl. unfold choose. by rewrite Hp.
Qed.

Lemma build_dispense_rows_no_wells_witness :
  build_dispense_rows (<["S" := []]> example_rtw) ten half "H12" "Mastermix"
    ([("B1", ["R"])] ++ ("B2", ["R"] ++ "S" :: ["R"]) :: [("B3", ["R"])])
    (Locals ∅ [])
  = raise (ValueError MinOfEmptySequence).
Proof.
  apply build_dispense_rows_no_wells.
  - vm_compute. reflexivity.
  - volumes_fit.
  - declared_example.
  - reflexivity.
Defined.

(** ** DispensePlanner: the load stays level *)

Lemma balanced_empty (wells : list string) : balanced ∅ wells.
Proof. intros i j wi wj _ _ _. unfold usage_get. rewrite !lookup_empty. simpl. lia. Qed.

Lemma choose_balanced rtw usage reagent best usage' :
  separate_wells rtw →
  (∀ r wells, rtw !! r = Some wells → balanced usage wells) →
  choose rtw usage reagent = ok (best, usage') →
  ∀ r wells, rtw !! r = Some wells → balanced usage' wells.
Proof.
  intros [Hnodup Hsep] Hinv (wells0 & Hwells0 & (k & Hk & Hmin & Hfirst) & ->)%choose_inv
    r wells Hwells i j wi wj Hij Hi Hj.
  rewrite !usage_get_insert.
  pose proof (Hinv r wells Hwells i j wi wj Hij Hi Hj) as Hbal.
  destruct (decide (r = reagent)) as [->|Hne].
  - assert (wells = wells0) as -> by congruence.
    pose proof (Hnodup _ _ Hwells0) as Hnd.
    destruct (decide (best = wi)) as [<-|Hwi], (decide (best = wj)) as [<-|Hwj].
    + pose proof (NoDup_lookup _ _ _ _ Hnd Hi Hj). lia.
    + assert (usage_get usage best ≤ usage_get usage wj)%nat
        by (by eapply Hmin, list_elem_of_lookup_2).
      lia.
    + assert (j = k) as -> by (by eapply NoDup_lookup).
      pose proof (Hfirst i wi Hij Hi). lia.
    + done.
  - assert (Hin : best ∈ wells0) by (by eapply list_elem_of_lookup_2).
    assert (Hnotin : best ∉ wells) by (by eapply (Hsep reagent r)).
    destruct (decide (best = wi)) as [<-|_].
    { exfalso. by eapply Hnotin, list_elem_of_lookup_2. }
    destruct (decide (best = wj)) as [<-|_]; [|done].
    exfalso. by eapply Hnotin, list_elem_of_lookup_2.
Qed.

Lemma choose_all_balanced rtw usage parts srcs usage' :
  separate_wells rtw →
  (∀ r wells, rtw !! r = Some wells → balanced usage wells) →
  choose_all rtw usage parts = ok (srcs, usage') →
  ∀ r wells, rtw !! r = Some wells → balanced usage' wells.
Proof.
  intros Hsep. revert usage srcs.
  induction parts as [|p ps IH]; intros usage srcs Hinv; simpl.
  - by intros [= <- <-].
  - destruct (choose rtw usage p) as [|[src u1]] eqn:Hp; [done|]. simpl.
    destruct (choose_all rtw u1 ps) as [|[srcs1 u2]] eqn:Hps; [done|].
    intros [= <- <-]. eapply IH; [|done].
    by eapply choose_balanced.
Qed.

(** X8: when no well is declared twice, the counter left by a run is level
    for every reagent: along the declaration order of its wells the counts
    never increase, and any two of them differ by at most one. *)
Theorem build_dispense_rows_balanced
    (rtw : gmap string (list string)) (V d : float) (mmw mmn : string)
    (reactions : list reaction) (frame : locals)
    (rws : list row) (st' : locals) :
  separate_wells rtw →
  build_dispense_rows rtw V d mmw mmn reactions frame = ok (rws, st') →
  ∀ reagent wells, rtw !! reagent = Some wells →
    balanced (well_usage st') wells.
Proof.
  intros Hsep (_ & srcss & _ & _ & Hch & _)%build_dispense_rows_inv.
  eapply choose_all_balanced; [done| |done].
  intros r wells _. apply balanced_empty.
Qed.

Lemma separate_wells_example : separate_wells example_rtw.
Proof.
  unfold example_rtw. split.
  - intros r wells [_ <-]%lookup_singleton_Some.
    apply (bool_decide_unpack _). reflexivity.
  - intros r1 r2 wells1 wells2 w Hne
      [<- _]%lookup_singleton_Some [<- _]%lookup_singleton_Some. done.
Qed.

Lemma build_dispense_rows_balanced_witness :
  balanced {["A1" := 2%nat; "A2" := 1%nat]} ["A1"; "A2"].
Proof.
  refine (build_dispense_rows_balanced example_rtw ten half "H12" "Mastermix"
            example_reactions (Locals ∅ []) _
            (Locals {["A1" := 2%nat; "A2" := 1%nat]} _)
            separate_wells_example _ "R" ["A1"; "A2"] _).
  - vm_compute. reflexivity.
  - reflexivity.
Defined.

(** ** The Excel readers *)

Ltac decide_true P :=
  match goal with
  | |- context [@bool_decide P ?dec] =>
      rewrite (@bool_decide_eq_true_2 P dec) by (done || congruence || tauto || (intros [? ?]; done))
  end.

Ltac decide_false P :=
  match goal with
  | |- context [@bool_decide P ?dec] =>
      rewrite (@bool_decide_eq_false_2 P dec) by (done || congruence || tauto || (intros [? ?]; done))
  end.

Lemma upper_idempotent (c : ascii) : Py.upper (Py.upper c) = Py.upper c.
Proof. destruct c as [[] [] [] [] [] [] [] []]; reflexivity. Qed.

Lemma str_upper_idempotent (s : string) : Str.upper (Str.upper s) = Str.upper s.
Proof.
  induction s as [|c s IH]; simpl; [done|]. by rewrite upper_idempotent, IH.
Qed.

Lemma filter_nonempty_strings (l : list string) :
  Forall (λ part, part ≠ "") (filter (λ s, s ≠ "") l).
Proof. apply Forall_forall. by intros x [? _]%list_elem_of_filter. Qed.

Section reader_facts.
Context {cell : Type} (is_None : cell → bool) (py_str : cell → string).

Local Abbreviation to_str := (_cell_to_str is_None py_str).

Lemma read_source_plate_lookup_gen (pairs : list (cell * cell)) (r : string) :
  foldl (λ reagent_to_well '(well, reagent),
           let w := Str.upper (to_str well) in
           let r := to_str reagent in
           if bool_decide (w = "") || bool_decide (r = "")
           then reagent_to_well
           else <[r := default [] (reagent_to_well !! r) ++ [w]]> reagent_to_well)
        (∅ : gmap string (list string)) pairs !! r
  = match plate_wells is_None py_str pairs r with
    | [] => None
    | wells => if bool_decide (r = "") then None else Some wells
    end.
Proof.
  induction pairs as [|[well reagent] pairs IH] using rev_ind.
  { simpl. by rewrite lookup_empty. }
  rewrite foldl_snoc. unfold plate_wells in *. rewrite omap_app. simpl.
  set (w := Str.upper (to_str well)) in *.
  set (r' := to_str reagent) in *.
  set (m := foldl _ _ pairs) in *.
  set (ws := omap _ pairs) in *.
  destruct (decide (w = "")) as [Hw|Hw].
  { decide_true (w = ""). simpl.
    decide_false (w ≠ "" ∧ r' = r). simpl.
    by rewrite IH, app_nil_r. }
  decide_false (w = ""). simpl.
  destruct (decide (r' = "")) as [Hr'|Hr'].
  { decide_true (r' = ""). rewrite IH.
    destruct (decide (r' = r)) as [Heq|Hne].
    - decide_true (r = "").
      by destruct ws, (bool_decide _).
    - decide_false (w ≠ "" ∧ r' = r). simpl.
      by rewrite app_nil_r. }
  decide_false (r' = "").
  destruct (decide (r' = r)) as [Heq|Hne].
  - rewrite Heq, lookup_insert_eq, IH.
    decide_true (w ≠ "" ∧ r = r).
    decide_false (r = ""). simpl.
    by destruct ws.
  - rewrite lookup_insert_ne, IH by done.
    decide_false (w ≠ "" ∧ r' = r). simpl.
    by rewrite app_nil_r.
Qed.

(** X9: the wells [read_source_plate] records for a reagent are the wells of
    the rows that name it, in row order and in upper case; rows whose well
    or reagent cell is empty (None, or blank after stripping) are skipped,
    so a reagent is a key only if it has a well, and the empty name never
    is. *)
Theorem read_source_plate_lookup (ws : worksheet cell) (r : string) :
  read_source_plate is_None py_str ws !! r
  = match plate_wells is_None py_str (body_pairs ws) r with
    | [] => None
    | wells => if bool_decide (r = "") then None else Some wells
    end.
Proof. apply read_source_plate_lookup_gen. Qed.

Lemma elem_of_plate_wells (pairs : list (cell * cell)) (r w : string) :
  w ∈ plate_wells is_None py_str pairs r → w ≠ "" ∧ Str.upper w = w.
Proof.
  unfold plate_wells. intros ([well reagent] & _ & Hw)%list_elem_of_omap.
  simpl in Hw. case_bool_decide as Hcase; [|done].
  injection Hw as <-. split; [tauto|apply str_upper_idempotent].
Qed.

Lemma read_source_plate_wf (ws : worksheet cell) (r : string) (wells : list string) :
  read_source_plate is_None py_str ws !! r = Some wells →
  r ≠ "" ∧ wells ≠ [] ∧ Forall (λ w, w ≠ "" ∧ Str.upper w = w) wells.
Proof.
  unfold read_source_plate. rewrite read_source_plate_lookup_gen.
  destruct (plate_wells _ _ _ r) as [|w ws'] eqn:Hwells; [done|].
  case_bool_decide; [done|]. intros [= <-]. split_and!; [done..|].
  apply Forall_forall. intros w' Hw'. eapply (elem_of_plate_wells _ r).
  by rewrite Hwells.
Qed.

(** X10: with the reagent map that [read_source_plate] builds, a run of the
    planner can only fail with the missing-parts error or the volume error:
    every key of that map has at least one well, so [min] never sees an
    empty list.  The wells of the map are non-empty upper-case texts. *)
Theorem read_source_plate_then_plan
    (ws : worksheet cell) (V d : float) (mmw mmn : string)
    (reactions : list reaction) (frame : locals) (e : exn) :
  build_dispense_rows (read_source_plate is_None py_str ws) V d mmw mmn
    reactions frame = raise e →
  (∀ r wells, read_source_plate is_None py_str ws !! r = Some wells →
     r ≠ "" ∧ wells ≠ [] ∧ Forall (λ w, w ≠ "" ∧ Str.upper w = w) wells)
  ∧ ((∃ names, names ≠ [] ∧ e = ValueError (PartsNotOnSourcePlate names))
     ∨ (∃ r, r ∈ reactions
           ∧ Float.ltb (mm_vol V d (length r.2)) (Float.of_int 0) = true
           ∧ e = ValueError (VolumeExceeded r.1 (length r.2) d
                   (Float.mul (Float.of_int (Z.of_nat (length r.2))) d) V))).
Proof.
  intros Hrun. split; [apply read_source_plate_wf|].
  apply build_dispense_rows_raise_cases in Hrun
    as [Hmiss|[(r & Hr & Hex & ->)|(r & p & _ & _ & Hnil & _)]].
  - by left.
  - right. by exists r.
  - by apply read_source_plate_wf in Hnil as (_ & ? & _).
Qed.
End reader_facts.

Lemma read_source_plate_then_plan_witness :
  (∀ r wells,
     read_source_plate text_is_None text_str
       (Worksheet [] [] [(Some " a1 ", Some "R"); (None, Some "Q")] (λ _, []))
       !! r = Some wells →
     r ≠ "" ∧ wells ≠ [] ∧ Forall (λ w, w ≠ "" ∧ Str.upper w = w) wells)
  ∧ ((∃ names, names ≠ []
             ∧ ValueError (PartsNotOnSourcePlate ["Q"])
               = ValueError (PartsNotOnSourcePlate names))
     ∨ (∃ r, r ∈ [("B1", ["R"; "Q"])]
           ∧ Float.ltb (mm_vol ten half (length r.2)) (Float.of_int 0) = true
           ∧ ValueError (PartsNotOnSourcePlate ["Q"])
             = ValueError (VolumeExceeded r.1 (length r.2) half
                 (Float.mul (Float.of_int (Z.of_nat (length r.2))) half) ten))).
Proof.
  apply (read_source_plate_then_plan text_is_None text_str
           (Worksheet [] [] [(Some " a1 ", Some "R"); (None, Some "Q")] (λ _, []))
           ten half "H12" "Mastermix" [("B1", ["R"; "Q"])] (Locals ∅ [])).
  vm_compute. reflexivity.
Defined.

Lemma omap_length_le {A B} (f : A → option B) (l : list A) :
  (length (omap f l) ≤ length l)%nat.
Proof.
  induction l as [|x l IH]; csimpl; [done|]. destruct (f x); csimpl; lia.
Qed.

Section manual_reader_facts.
Context {cell : Type} (is_None : cell → bool) (py_str : cell → string).

Local Abbreviation to_str := (_cell_to_str is_None py_str).

Lemma read_manual_rows_inv (rows : list (list cell)) :
  match read_manual_rows is_None py_str (Worksheet [] rows [] (λ _, [])) with
  | inr reactions =>
      Forall (λ row, row ≠ []) rows
      ∧ Forall proper_reaction reactions
      ∧ Forall (λ r, Str.upper r.1 = r.1) reactions
      ∧ (length reactions ≤ length rows)%nat
  | inl e => e = IndexError ∧ [] ∈ rows
  end.
Proof.
  unfold read_manual_rows. simpl.
  induction rows as [|row rows IH] using rev_ind.
  { simpl. split_and!; by constructor. }
  rewrite foldl_snoc. destruct (foldl _ _ rows) as [e|reactions]; simpl.
  { destruct IH as [-> Hin]. split; [done|]. apply elem_of_app. by left. }
  destruct IH as (Hrows & Hproper & Hupper & Hlen).
  destruct row as [|val0 vals]; simpl.
  { split; [done|]. apply elem_of_app. right. left. }
  assert (Hrows' : Forall (λ row, row ≠ []) (rows ++ [val0 :: vals])).
  { apply Forall_app. split; [done|]. by constructor. }
  rewrite length_app. simpl.
  case_bool_decide as Htarget; simpl; [split_and!; [done..|lia]|].
  case_bool_decide as Hparts; simpl; [split_and!; [done..|lia]|].
  rewrite length_app. simpl. split_and!; [done| | |lia].
  - apply Forall_app. split; [done|]. constructor; [|done].
    split_and!; [done..|apply filter_nonempty_strings].
  - apply Forall_app. split; [done|]. constructor; [|done].
    apply str_upper_idempotent.
Qed.

Lemma manual_rows_worksheet (ws : worksheet cell) :
  read_manual_rows is_None py_str ws
  = read_manual_rows is_None py_str (Worksheet [] (body_rows ws) [] (λ _, [])).
Proof. reflexivity. Qed.

(** X11: [read_manual_rows] fails only with IndexError, and exactly when a
    row without any cell is reached; otherwise every reaction it returns
    has a non-empty upper-case target and at least one part, none of them
    empty, and there is at most one reaction per row. *)
Theorem read_manual_rows_outcomes (ws : worksheet cell) :
  match read_manual_rows is_None py_str ws with
  | inr reactions =>
      Forall (λ row, row ≠ []) (body_rows ws)
      ∧ Forall proper_reaction reactions
      ∧ Forall (λ r, Str.upper r.1 = r.1) reactions
      ∧ (length reactions ≤ length (body_rows ws))%nat
  | inl e => e = IndexError ∧ [] ∈ body_rows ws
  end.
Proof. rewrite manual_rows_worksheet. apply read_manual_rows_inv. Qed.

(** The loop over the header cells of [read_manual_columns]. *)
Lemma manual_columns_loop (ws : worksheet cell)
    (headers : list (nat * string)) (acc : list reaction) :
  foldl (λ reactions '(col_idx, well),
           if bool_decide (well = "") then reactions
           else
             let parts := column_values is_None py_str ws col_idx in
             if bool_decide (parts = []) then reactions
             else reactions ++ [(well, parts)])
        acc headers
  = acc ++ omap (λ '(col_idx, well),
                   if bool_decide (well = "") then None
                   else if bool_decide
                             (column_values is_None py_str ws col_idx = [])
                        then None
                        else Some (well, column_values is_None py_str ws col_idx))
                headers.
Proof.
  revert acc. induction headers as [|[col_idx well] headers IH]; intros acc.
  { simpl. by rewrite app_nil_r. }
  simpl. rewrite IH.
  case_bool_decide; [done|]. case_bool_decide; [done|].
  simpl. by rewrite <- app_assoc.
Qed.

Lemma read_manual_columns_inv (ws : worksheet cell) :
  match read_manual_columns is_None py_str ws with
  | inr reactions =>
      ∃ first rest, header_rows ws = first :: rest
        ∧ Forall proper_reaction reactions
        ∧ Forall (λ r, ∃ col_idx c,
                    first !! col_idx = Some c
                    ∧ r.1 = Str.upper (to_str c)
                    ∧ r.2 = column_values is_None py_str ws col_idx)
                 reactions
        ∧ (length reactions ≤ length first)%nat
  | inl e => e = StopIteration ∧ header_rows ws = []
  end.
Proof.
  unfold read_manual_columns. destruct (header_rows ws) as [|first rest]; [done|].
  exists first, rest. split; [done|]. rewrite manual_columns_loop. simpl.
  set (headers := (λ c, Str.upper (to_str c)) <$> first).
  assert (Hall : ∀ r,
    r ∈ omap (λ '(col_idx, well),
                if bool_decide (well = "") then None
                else if bool_decide
                          (column_values is_None py_str ws col_idx = [])
                     then None
                     else Some (well, column_values is_None py_str ws col_idx))
             (imap pair headers) →
    proper_reaction r
    ∧ ∃ col_idx c, first !! col_idx = Some c
                 ∧ r.1 = Str.upper (to_str c)
                 ∧ r.2 = column_values is_None py_str ws col_idx).
  { intros r ([col_idx well] & Hin & Hr)%list_elem_of_omap.
    apply list_elem_of_lookup in Hin as [i Hi].
    rewrite list_lookup_imap in Hi. unfold headers in Hi.
    rewrite list_lookup_fmap in Hi.
    destruct (first !! i) as [c|] eqn:Hc; [|done]. simpl in Hi.
    injection Hi as <- <-.
    case_bool_decide as Hwell; [done|]. case_bool_decide as Hparts; [done|].
    injection Hr as <-. split.
    - split_and!; [done..|]. apply filter_nonempty_strings.
    - by exists i, c. }
  split_and!.
  - apply Forall_forall. intros r Hr. by apply Hall.
  - apply Forall_forall. intros r Hr. by apply Hall.
  - etrans; [apply omap_length_le|].
    rewrite length_imap. unfold headers. by rewrite length_fmap.
Qed.

(** X12: [read_manual_columns] fails only with StopIteration, and exactly
    when the sheet yields no first row; otherwise every reaction it returns
    comes from one header cell, has that cell's text in upper case as its
    non-empty target and the non-empty texts of that column as its parts,
    of which there is at least one. *)
Theorem read_manual_columns_outcomes (ws : worksheet cell) :
  match read_manual_columns is_None py_str ws with
  | inr reactions =>
      ∃ first rest, header_rows ws = first :: rest
        ∧ Forall proper_reaction reactions
        ∧ Forall (λ r, ∃ col_idx c,
                    first !! col_idx = Some c
                    ∧ r.1 = Str.upper (to_str c)
                    ∧ r.2 = column_values is_None py_str ws col_idx)
                 reactions
        ∧ (length reactions ≤ length first)%nat
  | inl e => e = StopIteration ∧ header_rows ws = []
  end.
Proof. apply read_manual_columns_inv. Qed.

(** X13: what the manual readers return and [build_manual_reactions] lets
    through satisfies the requirements on reactions: the list is not empty
    and every reaction has a target and at least one named part. *)
Theorem manual_reactions_proper (ws : worksheet cell)
    (read reactions : list reaction) :
  read_manual_rows is_None py_str ws = ok read
  ∨ read_manual_columns is_None py_str ws = inr read →
  build_manual_reactions read = ok reactions →
  reactions = read ∧ reactions ≠ [] ∧ Forall proper_reaction reactions.
Proof.
  intros Hread Hbuild.
  assert (Hproper : Forall proper_reaction read).
  { destruct Hread as [Hread|Hread].
    - pose proof (read_manual_rows_inv (body_rows ws)) as Hinv.
      rewrite <- manual_rows_worksheet, Hread in Hinv.
      by destruct Hinv as (_ & ? & _).
    - pose proof (read_manual_columns_inv ws) as Hinv.
      rewrite Hread in Hinv. by destruct Hinv as (? & ? & _ & ? & _). }
  destruct read as [|r rs]; [done|]. by injection Hbuild as <-.
Qed.
End manual_reader_facts.

Lemma manual_reactions_proper_witness :
  [("A1", ["p"; "q"])] = [("A1", ["p"; "q"])]
  ∧ [("A1", ["p"; "q"])] ≠ ([] : list reaction)
  ∧ Forall proper_reaction [("A1", ["p"; "q"])].
Proof.
  apply (manual_reactions_proper text_is_None text_str
           (Worksheet [] [[Some "a1"; Some " p"; None; Some "q "];
                          [None; Some "r"]; [Some "b2"; Some " "]] []
                      (λ _, []))).
  - left. vm_compute. reflexivity.
  - reflexivity.
Defined.

Lemma lex_product_nonempty {A} (groups : list (list A)) :
  Forall (λ g, g ≠ []) groups → lex_product groups ≠ [].
Proof.
  intros Hall Hnil. apply (f_equal length) in Hnil.
  rewrite lex_product_length in Hnil. simpl in Hnil.
  induction Hall as [|g gs Hg _ IH]; simpl in Hnil; [done|].
  destruct g; [done|]. simpl in Hnil.
  destruct (foldr _ _ gs); [by apply IH|lia].
Qed.

Lemma omap_cons_match {A B} (f : A → option B) (x : A) (l : list A) :
  omap f (x :: l)
  = match f x with Some y => y :: omap f l | None => omap f l end.
Proof. done. Qed.

Section combinatorial_reader_facts.
Context {cell : Type} (is_None : cell → bool) (py_str : cell → string).

(** The loop over the header cells of [read_combinatorial]. *)
Lemma combinatorial_loop (ws : worksheet cell) (headers : list (nat * string))
    (common_parts : list string) (groups : list (list string)) :
  foldl (λ '(common_parts, groups) '(col_idx, header),
           if bool_decide (header = "") then (common_parts, groups)
           else
             let col_values := column_values is_None py_str ws col_idx in
             if bool_decide (Str.lower header = "common")
             then (col_values, groups)
             else if bool_decide (col_values = [])
                  then (common_parts, groups)
                  else (common_parts, groups ++ [col_values]))
        (common_parts, groups) headers
  = (default common_parts
       (last (omap (header_common is_None py_str ws) headers)),
     groups ++ omap (header_group is_None py_str ws) headers).
Proof.
  revert common_parts groups.
  induction headers as [|[col_idx header] headers IH];
    intros common_parts groups.
  { simpl. by rewrite app_nil_r. }
  cbn [foldl]. rewrite !omap_cons_match.
  set (values := column_values is_None py_str ws col_idx).
  destruct (decide (header = "")) as [Hh|Hh].
  { assert (header_common is_None py_str ws (col_idx, header) = None) as ->.
    { unfold header_common. cbn [fst snd]. fold values. by decide_true (header = ""). }
    assert (header_group is_None py_str ws (col_idx, header) = None) as ->.
    { unfold header_group. cbn [fst snd]. fold values. by decide_true (header = ""). }
    decide_true (header = ""). by rewrite IH. }
  decide_false (header = "").
  destruct (decide (Str.lower header = "common")) as [Hc|Hc].
  { assert (header_common is_None py_str ws (col_idx, header) = Some values)
      as ->.
    { unfold header_common. cbn [fst snd]. fold values. decide_false (header = "").
      by decide_true (Str.lower header = "common"). }
    assert (header_group is_None py_str ws (col_idx, header) = None) as ->.
    { unfold header_group. cbn [fst snd]. fold values. decide_false (header = "").
      by decide_true (Str.lower header = "common"). }
    decide_true (Str.lower header = "common").
    rewrite IH, last_cons. by destruct (last _). }
  decide_false (Str.lower header = "common").
  assert (header_common is_None py_str ws (col_idx, header) = None) as ->.
  { unfold header_common. cbn [fst snd]. fold values. decide_false (header = "").
    by decide_false (Str.lower header = "common"). }
  destruct (decide (values = [])) as [Hv|Hv].
  - assert (header_group is_None py_str ws (col_idx, header) = None) as ->.
    { unfold header_group. cbn [fst snd]. fold values. decide_false (header = "").
      decide_false (Str.lower header = "common"). by decide_true (values = []). }
    decide_true (values = []). by rewrite IH.
  - assert (header_group is_None py_str ws (col_idx, header) = Some values)
      as ->.
    { unfold header_group. cbn [fst snd]. fold values. decide_false (header = "").
      decide_false (Str.lower header = "common"). by decide_false (values = []). }
    decide_false (values = []). by rewrite IH, <- app_assoc.
Qed.

Lemma header_group_proper (ws : worksheet cell) (col : nat * string)
    (g : list string) :
  header_group is_None py_str ws col = Some g →
  g ≠ [] ∧ Forall (λ part, part ≠ "") g.
Proof.
  unfold header_group. repeat case_bool_decide; try done.
  intros [= <-]. split; [done|apply filter_nonempty_strings].
Qed.

(** X14: [read_combinatorial] fails only with StopIteration, when the sheet
    yields no first row.  Otherwise the groups are, in column order, the
    columns under the named headers other than "common" that have a
    non-empty cell, so no group is empty and no part is unnamed; the common
    parts are the column of the last header reading "common" in any case
    (an earlier one is dropped), or none.  Expanding the result therefore
    never yields an empty list of reactions. *)
Theorem read_combinatorial_outcomes (ws : worksheet cell) :
  match read_combinatorial is_None py_str ws with
  | inr (common_parts, groups) =>
      ∃ first rest,
        header_rows ws = first :: rest
        ∧ groups = omap (header_group is_None py_str ws)
                     (imap pair (_cell_to_str is_None py_str <$> first))
        ∧ common_parts
          = default [] (last (omap (header_common is_None py_str ws)
                     (imap pair (_cell_to_str is_None py_str <$> first))))
        ∧ Forall (λ g, g ≠ [] ∧ Forall (λ part, part ≠ "") g) groups
        ∧ Forall (λ part, part ≠ "") common_parts
        ∧ ∀ reactions,
            build_combinatorial_reactions common_parts groups = ok reactions →
            reactions ≠ []
  | inl e => e = StopIteration ∧ header_rows ws = []
  end.
Proof.
  unfold read_combinatorial. destruct (header_rows ws) as [|first rest]; [done|].
  rewrite combinatorial_loop. simpl.
  set (headers := imap pair (_cell_to_str is_None py_str <$> first)).
  assert (Hgroups : Forall (λ g, g ≠ [] ∧ Forall (λ part, part ≠ "") g)
                      (omap (header_group is_None py_str ws) headers)).
  { apply Forall_forall. intros g (col & _ & Hg)%list_elem_of_omap.
    by eapply header_group_proper. }
  exists first, rest. split_and!; [done..| |].
  - destruct (last _) as [common|] eqn:Hlast; simpl; [|constructor].
    apply last_Some_elem_of, list_elem_of_omap in Hlast as (col & _ & Hc).
    unfold header_common in Hc. repeat case_bool_decide; try done.
    injection Hc as <-. apply filter_nonempty_strings.
  - intros reactions (_ & Hle & ->)%build_combinatorial_reactions_inv Hnil.
    apply (f_equal length) in Hnil. rewrite length_zip_with in Hnil.
    assert (Hne : lex_product (omap (header_group is_None py_str ws) headers)
                  ≠ []).
    { apply lex_product_nonempty. eapply Forall_impl; [exact Hgroups|].
      by intros g [? _]. }
    rewrite length_take, all_wells_length in Hnil. simpl in Hnil.
    destruct (lex_product _); [done|]. simpl in *. lia.
Qed.

(** X15: a setting read by [read_settings] has the value of the last row
    whose key cell is not None and reads as that name; names that no such
    row gives are absent. *)
Theorem read_settings_lookup (ws : worksheet cell) (k : string) :
  read_settings is_None py_str ws !! k
  = last (settings_values is_None py_str (body_pairs ws) k).
Proof.
  unfold read_settings, settings_values.
  induction (body_pairs ws) as [|[key val] pairs IH] using rev_ind.
  { simpl. by rewrite lookup_empty. }
  rewrite foldl_snoc, omap_app, last_app. simpl.
  destruct (is_None key) eqn:Hkey.
  { rewrite bool_decide_eq_false_2 by (intros [? _]; done). simpl. apply IH. }
  destruct (decide (_cell_to_str is_None py_str key = k)) as [Heq|Hne].
  - rewrite bool_decide_eq_true_2 by done. simpl.
    by rewrite Heq, lookup_insert_eq.
  - rewrite bool_decide_eq_false_2 by (intros [_ ?]; done). simpl.
    by rewrite lookup_insert_ne.
Qed.
End combinatorial_reader_facts.

(** ** The planning step of main *)

Lemma get_sheet_missing {cell} (wb : workbook cell) (name : string) :
  name ∉ sheetnames wb → get_sheet wb name = inl (Exn (KeyError name)).
Proof.
  induction wb as [|[title ws] wb IH]; simpl; [done|].
  intros [Hne Hnotin]%not_elem_of_cons.
  rewrite bool_decide_eq_false_2 by done. by apply IH.
Qed.

Lemma get_sheet_present {cell} (wb : workbook cell) (name : string) :
  name ∈ sheetnames wb → ∃ ws, get_sheet wb name = inr ws.
Proof.
  induction wb as [|[title ws] wb IH]; simpl; [by intros ?%elem_of_nil|].
  intros Hin. case_bool_decide as Htitle; [by exists ws|].
  apply elem_of_cons in Hin as [Heq|Hin]; [by subst|by apply IH].
Qed.

Lemma build_combinatorial_reactions_raise common_parts groups e :
  build_combinatorial_reactions common_parts groups = raise e →
  ∃ msg, e = ValueError msg.
Proof.
  unfold build_combinatorial_reactions. destruct groups as [|g gs].
  { intros [= <-]. by eexists. }
  unfold generate_target_wells. destruct (_ <? _); [|done].
  intros [= <-]. by eexists.
Qed.

Lemma build_manual_reactions_raise manual e :
  build_manual_reactions manual = raise e → ∃ msg, e = ValueError msg.
Proof. destruct manual; [|done]. intros [= <-]. by eexists. Qed.

Lemma call_build_dispense_rows_raise rtw V d mmw mmn
    (reactions : list reaction) frame e :
  call (build_dispense_rows rtw V d mmw mmn reactions) frame = raise e →
  ∃ msg, e = ValueError msg.
Proof.
  unfold call.
  destruct (build_dispense_rows _ _ _ _ _ _ _) as [e'|[rws st]] eqn:Hrun;
    [|done].
  intros [= <-].
  apply build_dispense_rows_raise_cases in Hrun
    as [(? & _ & ->)|[(r & _ & _ & ->)|(? & ? & _ & _ & _ & ->)]];
    by eexists.
Qed.

Lemma read_combinatorial_raise {cell} (is_None : cell → bool)
    (py_str : cell → string) (ws : worksheet cell) e :
  read_combinatorial is_None py_str ws = inl e → e = StopIteration.
Proof.
  unfold read_combinatorial. destruct (header_rows ws); [|done].
  by intros [= <-].
Qed.

Section main_facts.
Context {cell : Type} (is_None : cell → bool) (py_str : cell → string).

(** X16: in mode "manual_rows" the program tests for a sheet titled
    "Manual" but opens the sheet titled "Manual Rows".  Without a sheet
    "Manual" it exits saying that there is no 'Manual Rows' sheet, whether
    or not that sheet exists; with a sheet "Manual" but no sheet
    "Manual Rows" the lookup raises KeyError, which the [try] block does not
    turn into an exit. *)
Theorem main_manual_rows_sheet_name (wb : workbook cell)
    (rtw : gmap string (list string)) (V d : float) (mmw mmn : string) :
  ("Manual" ∉ sheetnames wb →
   main_plan is_None py_str "manual_rows" wb rtw V d mmw mmn
   = inl (SystemExit (ExitText
       "Error: mode is 'manual_rows' but no 'Manual Rows' sheet found.")))
  ∧ ("Manual" ∈ sheetnames wb → "Manual Rows" ∉ sheetnames wb →
     main_plan is_None py_str "manual_rows" wb rtw V d mmw mmn
     = inl (Exn (KeyError "Manual Rows"))).
Proof.
  unfold main_plan, main_reactions. simpl. split.
  - intros Hno. by rewrite bool_decide_eq_false_2.
  - intros Hyes Hno. rewrite bool_decide_eq_true_2 by done.
    by rewrite get_sheet_missing.
Qed.

Lemma main_reactions_raise (mode : string) (wb : workbook cell) e :
  main_reactions is_None py_str mode wb = inl e →
  (∃ msg, e = SystemExit msg)
  ∨ (∃ msg, e = Exn (ValueError msg))
  ∨ (e = StopIteration ∧ (mode = "combinatorial" ∨ mode = "manual_columns"))
  ∨ (mode = "manual_rows"
     ∧ (e = Exn IndexError ∨ e = Exn (KeyError "Manual Rows"))).
Proof.
  unfold main_reactions.
  case_bool_decide as Hcomb.
  { case_bool_decide as Hsheet; [|intros [= <-]; left; by eexists].
    destruct (get_sheet_present wb _ Hsheet) as [ws ->]. simpl.
    pose proof (read_combinatorial_raise is_None py_str ws) as Hread.
    destruct (read_combinatorial _ _ ws) as [e'|[common_parts groups]]; simpl.
    - intros [= <-]. rewrite (Hread e' eq_refl). right; right; left. tauto.
    - destruct (build_combinatorial_reactions _ _) as [e'|?] eqn:Hb; [|done].
      intros [= <-]. right; left.
      apply build_combinatorial_reactions_raise in Hb as [msg ->].
      by eexists. }
  case_bool_decide as Hcols.
  { case_bool_decide as Hsheet; [|intros [= <-]; left; by eexists].
    destruct (get_sheet_present wb _ Hsheet) as [ws ->]. simpl.
    pose proof (read_manual_columns_inv is_None py_str ws) as Hread.
    destruct (read_manual_columns _ _ ws) as [e'|manual]; simpl.
    - intros [= <-]. destruct Hread as [-> _]. right; right; left. tauto.
    - destruct (build_manual_reactions _) as [e'|?] eqn:Hb; [|done].
      intros [= <-]. right; left.
      apply build_manual_reactions_raise in Hb as [msg ->]. by eexists. }
  case_bool_decide as Hrows; [|intros [= <-]; left; by eexists].
  case_bool_decide as Hsheet; [|intros [= <-]; left; by eexists].
  destruct (decide ("Manual Rows" ∈ sheetnames wb)) as [Hin|Hnotin].
  - destruct (get_sheet_present wb _ Hin) as [ws ->]. simpl.
    pose proof (read_manual_rows_inv is_None py_str (body_rows ws)) as Hread.
    rewrite <- manual_rows_worksheet in Hread.
    destruct (read_manual_rows _ _ ws) as [e'|manual]; simpl.
    + intros [= <-]. destruct Hread as [-> _]. right; right; right. tauto.
    + destruct (build_manual_reactions _) as [e'|?] eqn:Hb; [|done].
      intros [= <-]. right; left.
      apply build_manual_reactions_raise in Hb as [msg ->]. by eexists.
  - rewrite get_sheet_missing by done. simpl.
    intros [= <-]. right; right; right. tauto.
Qed.

(** X17: no ValueError leaves the planning step of main: those of the
    builders and of the planner become exits.  What else can leave it is
    StopIteration from a sheet without a first row (modes "combinatorial"
    and "manual_columns"), and in mode "manual_rows" IndexError from a row
    without cells or KeyError for the sheet "Manual Rows". *)
Theorem main_plan_exceptions (mode : string) (wb : workbook cell)
    (rtw : gmap string (list string)) (V d : float) (mmw mmn : string)
    (e : exception) :
  main_plan is_None py_str mode wb rtw V d mmw mmn = inl e →
  (∃ msg, e = SystemExit msg)
  ∨ (e = StopIteration ∧ (mode = "combinatorial" ∨ mode = "manual_columns"))
  ∨ (mode = "manual_rows"
     ∧ (e = Exn IndexError ∨ e = Exn (KeyError "Manual Rows"))).
Proof.
  unfold main_plan.
  destruct (main_reactions is_None py_str mode wb) as [e'|reactions] eqn:Hre;
    simpl.
  - apply main_reactions_raise in Hre
      as [[msg ->]|[[msg ->]|[[-> Hmode]|[Hmode [-> | ->]]]]];
      simpl; intros [= <-]; try (left; by eexists); try tauto.
  - destruct (call _ _) as [e'|rws] eqn:Hcall; simpl; [|done].
    apply call_build_dispense_rows_raise in Hcall as [msg ->]. simpl.
    intros [= <-]. left. by eexists.
Qed.
End main_facts.

Lemma main_manual_rows_sheet_name_witness :
  main_plan text_is_None text_str "manual_rows"
    [("Manual Rows", Worksheet [] [[Some "A1"; Some "p"]] [] (λ _, []))]
    example_rtw ten half "H12" "Mastermix"
  = inl (SystemExit (ExitText
      "Error: mode is 'manual_rows' but no 'Manual Rows' sheet found."))
  ∧ main_plan text_is_None text_str "manual_rows"
      [("Manual", Worksheet [] [[Some "A1"; Some "p"]] [] (λ _, []))]
      example_rtw ten half "H12" "Mastermix"
    = inl (Exn (KeyError "Manual Rows")).
Proof.
  split.
  - apply main_manual_rows_sheet_name. by intros [= ]%list_elem_of_singleton.
  - apply main_manual_rows_sheet_name.
    + left.
    + by intros [= ]%list_elem_of_singleton.
Defined.

Lemma main_plan_exceptions_witness :
  (∃ msg, SystemExit (ExitError (PartsNotOnSourcePlate ["p"])) = SystemExit msg)
  ∨ (SystemExit (ExitError (PartsNotOnSourcePlate ["p"])) = StopIteration
     ∧ ("manual_columns" = "combinatorial"
        ∨ "manual_columns" = "manual_columns"))
  ∨ ("manual_columns" = "manual_rows"
     ∧ (SystemExit (ExitError (PartsNotOnSourcePlate ["p"])) = Exn IndexError
        ∨ SystemExit (ExitError (PartsNotOnSourcePlate ["p"]))
          = Exn (KeyError "Manual Rows"))).
Proof.
  apply (main_plan_exceptions text_is_None text_str "manual_columns"
           [("Manual Columns",
             Worksheet [[Some "a1"]] [] [] (λ _, [Some "p"]))]
           example_rtw ten half "H12" "Mastermix").
  vm_compute. reflexivity.
Defined.

(** ** Summary *)

Lemma dict_get_set {V} (d : list (string * V)) (k k' : string) (v : V) :
  dict_get (dict_set d k v) k'
  = if bool_decide (k = k') then Some v else dict_get d k'.
Proof.
  induction d as [|[k0 v0] d IH]; simpl.
  - by destruct (bool_decide (k = k')).
  - destruct (decide (k0 = k)) as [->|Hne].
    + rewrite (bool_decide_eq_true_2 (k = k)) by done. simpl.
      by destruct (bool_decide (k = k')).
    + rewrite (bool_decide_eq_false_2 (k0 = k)) by done. simpl. rewrite IH.
      destruct (decide (k = k')) as [->|Hne'].
      * rewrite (bool_decide_eq_true_2 (k' = k')) by done.
        by rewrite (bool_decide_eq_false_2 (k0 = k')).
      * by rewrite (bool_decide_eq_false_2 (k = k')).
Qed.

Lemma dict_get_None {V} (d : list (string * V)) (k : string) :
  dict_get d k = None ↔ k ∉ fst <$> d.
Proof.
  induction d as [|[k0 v0] d IH]; csimpl.
  - split; [intros _ ?%elem_of_nil|]; done.
  - rewrite not_elem_of_cons. simpl. case_bool_decide as Hk.
    + split; [done|intros [? _]; congruence].
    + rewrite IH. split; [intros ?; split; congruence|by intros [_ ?]].
Qed.

Lemma dict_set_keys {V} (d : list (string * V)) (k : string) (v : V) :
  fst <$> dict_set d k v
  = if bool_decide (k ∈ fst <$> d) then fst <$> d else (fst <$> d) ++ [k].
Proof.
  induction d as [|[k0 v0] d IH].
  - done.
  - cbn [dict_set]. rewrite fmap_cons. cbn [fst].
    destruct (decide (k0 = k)) as [->|Hne].
    + rewrite (bool_decide_eq_true_2 (k = k)) by done.
      rewrite fmap_cons. cbn [fst].
      by rewrite bool_decide_eq_true_2 by left.
    + rewrite (bool_decide_eq_false_2 (k0 = k)) by done.
      rewrite fmap_cons, IH. cbn [fst].
      destruct (decide (k ∈ fst <$> d)) as [Hin|Hnotin].
      * rewrite !bool_decide_eq_true_2; [done|by right|done].
      * rewrite !bool_decide_eq_false_2; [done| |done].
        intros [?|?]%elem_of_cons; congruence.
Qed.

Lemma rows_from_snoc (w : string) (rows : list row) (r : row) :
  rows_from w (rows ++ [r])
  = rows_from w rows ++ (if bool_decide (r.1.1.1 = w) then [r] else []).
Proof.
  unfold rows_from. rewrite filter_app. f_equal.
  rewrite filter_cons, filter_nil.
  destruct (decide (r.1.1.1 = w)) as [Heq|Hne].
  - by rewrite bool_decide_eq_true_2.
  - by rewrite bool_decide_eq_false_2.
Qed.

Section sorted_facts.
Context {A K : Type} (key : A → result K) (le : K → K → bool).

Lemma keys_inv (l : list A) :
  match Py.keys key l with
  | inr kl => kl.*2 = l ∧ Forall (λ p, key p.2 = ok p.1) kl
  | inl e => ∃ x, x ∈ l ∧ key x = raise e
  end.
Proof.
  induction l as [|x l IH]; simpl.
  - split; [done|constructor].
  - destruct (key x) as [e|k] eqn:Hk; simpl.
    + exists x. split; [left|done].
    + destruct (Py.keys key l) as [e|kl]; simpl.
      * destruct IH as (y & ? & ?). exists y. split; [by right|done].
      * destruct IH as [<- HF]. split; [done|]. by constructor.
Qed.

Lemma insert_sorted_perm (p : K * A) (l : list (K * A)) :
  Py.insert_sorted le p l ≡ₚ p :: l.
Proof.
  induction l as [|q l IH]; simpl; [done|].
  destruct (le p.1 q.1); [done|]. rewrite IH. apply Permutation_swap.
Qed.

Lemma insertion_sort_perm (kl : list (K * A)) :
  foldr (Py.insert_sorted le) [] kl ≡ₚ kl.
Proof.
  induction kl as [|p kl IH]; simpl; [done|].
  by rewrite insert_sorted_perm, IH.
Qed.

Lemma sorted_by_inv (l : list A) :
  match Py.sorted_by key le l with
  | inr l' => l' ≡ₚ l ∧ Forall (λ x, ∃ k, key x = ok k) l
  | inl e => ∃ x, x ∈ l ∧ key x = raise e
  end.
Proof.
  unfold Py.sorted_by. pose proof (keys_inv l) as H.
  destruct (Py.keys key l) as [e|kl]; simpl; [done|].
  destruct H as [<- HF]. split.
  - by rewrite insertion_sort_perm.
  - apply Forall_fmap. eapply Forall_impl; [exact HF|].
    intros p Hp. by exists p.1.
Qed.

End sorted_facts.

Lemma for_list_ok {A B} (f : A → result B) (g : A → B) (l : list A) :
  (∀ x, x ∈ l → f x = ok (g x)) → for_list f l = ok (g <$> l).
Proof.
  induction l as [|x l IH]; intros Hf; simpl; [done|].
  rewrite (Hf x) by left. simpl. rewrite IH; [done|].
  intros y Hy. apply Hf. by right.
Qed.

Lemma tally_inv (rows : list row) :
  ∀ vols names,
  foldl (λ '(vols, names) '(src, _, vol, name),
           (dict_set vols src
              (float_add (default (Float.of_int 0) (dict_get vols src)) vol),
            dict_set names src name))
        ([], []) rows = (vols, names) →
  fst <$> names = fst <$> vols
  ∧ NoDup (fst <$> vols)
  ∧ (∀ w, w ∈ fst <$> vols ↔ rows_from w rows ≠ [])
  ∧ (∀ w, w ∈ fst <$> vols →
          dict_get vols w = Some (total_from w rows)
          ∧ dict_get names w = last_name w rows).
Proof.
  induction rows as [|[[[src tgt] vol] name] rows IH] using rev_ind;
    intros vols names.
  - intros [= <- <-]. split; [done|]. split; [constructor|].
    split; [|by intros w ?%elem_of_nil].
    intros w. split; [by intros ?%elem_of_nil|done].
  - rewrite foldl_app. cbn [foldl].
    destruct (foldl _ _ rows) as [vols0 names0].
    destruct (IH vols0 names0 eq_refl) as (Hkeys & Hnd & Hin & Hval).
    intros [= <- <-].
    assert (Hk : ∀ w, w ∈ fst <$> dict_set vols0 src
                   (float_add (default (Float.of_int 0) (dict_get vols0 src))
                      vol)
                 ↔ w = src ∨ w ∈ fst <$> vols0).
    { intros w. rewrite dict_set_keys. case_bool_decide as Hsrc.
      - split; [by right|]. by intros [->|?].
      - rewrite elem_of_app, list_elem_of_singleton. tauto. }
    split; [|split; [|split]].
    + by rewrite !dict_set_keys, Hkeys.
    + rewrite dict_set_keys. case_bool_decide as Hsrc; [done|].
      apply NoDup_app. split; [done|]. split; [|apply NoDup_singleton].
      by intros w Hw ->%list_elem_of_singleton.
    + intros w. rewrite Hk, rows_from_snoc. cbn [fst].
      destruct (decide (src = w)) as [->|Hne].
      * rewrite bool_decide_eq_true_2 by done. split; [|by left].
        intros _. by destruct (rows_from w rows).
      * rewrite bool_decide_eq_false_2 by done. rewrite app_nil_r, Hin.
        split; [by intros [?|?]|by right].
    + intros w Hw. apply Hk in Hw. rewrite !dict_get_set.
      unfold total_from, last_name. rewrite rows_from_snoc. cbn [fst].
      destruct (decide (src = w)) as [->|Hne].
      * rewrite !bool_decide_eq_true_2 by done.
        rewrite !fmap_app, !list_fmap_singleton, foldl_app, last_snoc.
        cbn [foldl snd fst].
        split; [|done]. do 2 f_equal.
        destruct (decide (w ∈ fst <$> vols0)) as [Hw0|Hw0].
        -- by rewrite (proj1 (Hval w Hw0)).
        -- rewrite (proj2 (dict_get_None vols0 w) Hw0). cbn [default].
           destruct (rows_from w rows) eqn:Hrows; [done|].
           exfalso. apply Hw0, Hin. by rewrite Hrows.
      * rewrite !bool_decide_eq_false_2 by done. rewrite app_nil_r.
        destruct Hw as [->|Hw]; [done|]. by apply Hval.
Qed.

Lemma rows_from_nonempty (w : string) (rows : list row) :
  rows_from w rows ≠ [] ↔ w ∈ row_sources rows.
Proof.
  unfold rows_from, row_sources. rewrite list_elem_of_fmap. split.
  - destruct (filter _ rows) as [|r l] eqn:Hf; [done|]. intros _.
    assert (Hr : r ∈ filter (λ r : row, r.1.1.1 = w) rows)
      by (rewrite Hf; left).
    apply list_elem_of_filter in Hr as [Hw Hr]. by exists r.
  - intros (r & -> & Hr) Hnil.
    assert (Hin : r ∈ filter (λ r' : row, r'.1.1.1 = r.1.1.1) rows)
      by (by apply list_elem_of_filter).
    rewrite Hnil in Hin. by apply elem_of_nil in Hin.
Qed.

Lemma print_summary_inv (reactions : list reaction) (rows : list row)
    (V d : float) :
  match print_summary reactions rows V d with
  | inr s =>
      ∃ targets wells keys,
        Py.sorted_by well_sort_key Py.tuple_le reactions.*1 = ok targets
        ∧ head targets = Some (target_range s).1
        ∧ last targets = Some (target_range s).2
        ∧ NoDup keys
        ∧ (∀ w, w ∈ keys ↔ w ∈ row_sources rows)
        ∧ Py.sorted_by well_sort_key Py.tuple_le keys = ok wells
        ∧ source_table s
          = (λ w, (w, default "" (last_name w rows),
                   Float.round (total_from w rows) 2)) <$> wells
        ∧ total_reactions s = length reactions
  | inl e =>
      (reactions = [] ∧ e = IndexError)
      ∨ ∃ w, (w ∈ reactions.*1 ∨ w ∈ row_sources rows)
             ∧ well_sort_key w = raise e
  end.
Proof.
  unfold print_summary.
  destruct (foldl _ _ rows) as [vols names] eqn:Hfold.
  apply tally_inv in Hfold as (Hkeys & Hnd & Hin & Hval).
  pose proof (sorted_by_inv well_sort_key Py.tuple_le reactions.*1) as Ht.
  destruct (Py.sorted_by _ _ reactions.*1) as [e|targets] eqn:Hst;
    cbn [rbind].
  { right. destruct Ht as (w & Hw & He). exists w. split; [by left|done]. }
  destruct Ht as [Hperm _].
  destruct targets as [|first targets].
  { left. split; [|done]. apply Permutation_nil_l in Hperm.
    symmetry in Hperm. by apply fmap_nil_inv in Hperm. }
  pose proof (sorted_by_inv well_sort_key Py.tuple_le (fst <$> vols)) as Hw.
  destruct (Py.sorted_by _ _ (fst <$> vols)) as [e|wells] eqn:Hsw;
    cbn [rbind].
  { right. destruct Hw as (w & Hw & He). exists w. split; [|done].
    right. by apply rows_from_nonempty, Hin. }
  destruct Hw as [Hpermw _].
  rewrite (for_list_ok _ (λ w, (w, default "" (last_name w rows),
                                Float.round (total_from w rows) 2))).
  - cbn [rbind]. exists (first :: targets), wells, (fst <$> vols).
    cbn [target_range source_table total_reactions fst snd head].
    split; [done|]. split; [done|]. split.
    { destruct (last (first :: targets)) eqn:Hlast; [done|].
      by apply last_None in Hlast. }
    split; [done|]. split; [|done].
    intros w. by rewrite Hin, rows_from_nonempty.
  - intros w Hwin. rewrite Hpermw in Hwin.
    destruct (Hval w Hwin) as [Hvol Hname].
    unfold dict_item. rewrite Hvol.
    destruct (dict_get names w) as [name|] eqn:Hn.
    + by rewrite <- Hname.
    + apply dict_get_None in Hn. by rewrite Hkeys in Hn.
Qed.

Lemma tuple_le_refl (p : Z * nat) : Py.tuple_le p p = true.
Proof.
  unfold Py.tuple_le. rewrite Z.eqb_refl, Nat.leb_refl.
  by destruct (p.1 <? p.1).
Qed.

Lemma tuple_le_total (p q : Z * nat) :
  Py.tuple_le p q = false → Py.tuple_le q p = true.
Proof.
  unfold Py.tuple_le.
  destruct (Z.ltb_spec p.1 q.1), (Z.eqb_spec p.1 q.1),
    (Nat.leb_spec p.2 q.2), (Z.ltb_spec q.1 p.1), (Z.eqb_spec q.1 p.1),
    (Nat.leb_spec q.2 p.2); simpl; try done; lia.
Qed.

Lemma tuple_le_trans (p q r : Z * nat) :
  Py.tuple_le p q = true → Py.tuple_le q r = true → Py.tuple_le p r = true.
Proof.
  unfold Py.tuple_le.
  destruct (Z.ltb_spec p.1 q.1), (Z.eqb_spec p.1 q.1),
    (Nat.leb_spec p.2 q.2), (Z.ltb_spec q.1 r.1), (Z.eqb_spec q.1 r.1),
    (Nat.leb_spec q.2 r.2), (Z.ltb_spec p.1 r.1), (Z.eqb_spec p.1 r.1),
    (Nat.leb_spec p.2 r.2); simpl; try done; lia.
Qed.

Section sorted_order.
Context {A K : Type} (key : A → result K) (le : K → K → bool).
Hypothesis le_total : ∀ a b, le a b = false → le b a = true.
Hypothesis le_trans : ∀ a b c, le a b = true → le b c = true → le a c = true.

Lemma insert_sorted_sorted (p : K * A) (l : list (K * A)) :
  StronglySorted (λ p q, le p.1 q.1 = true) l →
  StronglySorted (λ p q, le p.1 q.1 = true) (Py.insert_sorted le p l).
Proof.
  induction 1 as [|q l Hl IH Hq]; simpl.
  - repeat constructor.
  - destruct (le p.1 q.1) eqn:Hpq.
    + constructor; [by constructor|]. constructor; [done|].
      eapply Forall_impl; [exact Hq|]. intros x Hx. by eapply le_trans.
    + constructor; [done|]. rewrite insert_sorted_perm.
      constructor; [by apply le_total|done].
Qed.

Lemma insertion_sort_sorted (kl : list (K * A)) :
  StronglySorted (λ p q, le p.1 q.1 = true)
                 (foldr (Py.insert_sorted le) [] kl).
Proof.
  induction kl as [|p kl IH]; simpl; [constructor|].
  by apply insert_sorted_sorted.
Qed.

Lemma sorted_by_sorted (l l' : list A) :
  Py.sorted_by key le l = ok l' →
  StronglySorted (λ a b, ∃ ka kb, key a = ok ka ∧ key b = ok kb
                                  ∧ le ka kb = true) l'.
Proof.
  unfold Py.sorted_by. pose proof (keys_inv key l) as H.
  destruct (Py.keys key l) as [e|kl]; simpl; [done|].
  destruct H as [_ HF]. intros [= <-].
  assert (HF' : Forall (λ p, key p.2 = ok p.1)
                       (foldr (Py.insert_sorted le) [] kl))
    by by rewrite insertion_sort_perm.
  pose proof (insertion_sort_sorted kl) as Hs.
  induction Hs as [|p sl Hsl IH Hp]; csimpl; [constructor|].
  apply Forall_cons in HF' as [Hkp HF'].
  constructor; [by apply IH|].
  apply Forall_fmap, Forall_forall. intros q Hq. simpl.
  exists p.1, q.1. split; [done|]. split.
  - by eapply Forall_forall in HF'.
  - by eapply Forall_forall in Hp.
Qed.

End sorted_order.

Lemma StronglySorted_last {A} (R : A → A → Prop) (l : list A) (x : A) :
  StronglySorted R l → last l = Some x →
  ∀ y, y ∈ l → y = x ∨ R y x.
Proof.
  induction 1 as [|a l Hl IH Ha]; [done|].
  destruct l as [|b l]; simpl.
  - intros [= <-] y ->%list_elem_of_singleton. by left.
  - intros Hlast y [->|Hy]%elem_of_cons.
    + right. eapply Forall_forall in Ha; [exact Ha|].
      destruct (last_Some_elem_of (b :: l) x Hlast); [left|by right].
    + by apply IH.
Qed.

Lemma sorted_wells (l l' : list string) :
  Py.sorted_by well_sort_key Py.tuple_le l = ok l' → StronglySorted key_le l'.
Proof.
  apply sorted_by_sorted; [apply tuple_le_total|apply tuple_le_trans].
Qed.

(** X18: with no reaction at all [print_summary] stops with IndexError,
    at [target_wells[0]], whatever the dispense rows and the volumes are. *)
Theorem print_summary_no_reactions (rows : list row) (V d : float) :
  print_summary [] rows V d = raise IndexError.
Proof.
  unfold print_summary. by destruct (foldl _ _ rows) as [vols names].
Qed.

(** X19: [print_summary] returns exactly when there is a reaction and
    every target well and every source well of the rows has a sort key.
    Otherwise it stops with IndexError (no reaction) or with the exception
    [well_sort_key] raises on one of these wells; the look-ups in its two
    dictionaries never fail. *)
Theorem print_summary_outcomes (reactions : list reaction) (rows : list row)
    (V d : float) :
  match print_summary reactions rows V d with
  | inr s =>
      reactions ≠ []
      ∧ Forall has_key reactions.*1 ∧ Forall has_key (row_sources rows)
  | inl e =>
      (reactions = [] ∧ e = IndexError)
      ∨ ∃ w, (w ∈ reactions.*1 ∨ w ∈ row_sources rows)
             ∧ well_sort_key w = raise e
  end.
Proof.
  pose proof (print_summary_inv reactions rows V d) as H.
  destruct (print_summary reactions rows V d) as [e|s]; [done|].
  destruct H as (targets & wells & keys & Hst & Hhd & _ & _ & Hin & Hsw & _).
  pose proof (sorted_by_inv well_sort_key Py.tuple_le reactions.*1) as Ht.
  pose proof (sorted_by_inv well_sort_key Py.tuple_le keys) as Hw.
  rewrite Hst in Ht. rewrite Hsw in Hw.
  destruct Ht as [Hperm Hkt], Hw as [_ Hkw].
  split; [|split; [done|]].
  - intros ->. apply Permutation_nil_r in Hperm. by subst targets.
  - apply Forall_forall. intros w Hw%Hin.
    by eapply Forall_forall in Hkw.
Qed.


(** X21: when [print_summary] returns, the two ends of the target range
    it reports are target wells of the reactions, the first no later and
    the second no earlier than every target well in the order of the sort
    keys (column number, then row); and the lines of the per-source table
    are in that same order. *)
Theorem print_summary_order (reactions : list reaction) (rows : list row)
    (V d : float) (s : summary) :
  print_summary reactions rows V d = ok s →
  (target_range s).1 ∈ reactions.*1
  ∧ (target_range s).2 ∈ reactions.*1
  ∧ (∀ t, t ∈ reactions.*1 →
          key_le (target_range s).1 t ∧ key_le t (target_range s).2)
  ∧ StronglySorted key_le (table_wells s).
Proof.
  intros Hs. pose proof (print_summary_inv reactions rows V d) as H.
  rewrite Hs in H.
  destruct H as (targets & wells & keys & Hst & Hhd & Hlast & _ & _ & Hsw
                 & Htab & _).
  pose proof (sorted_by_inv well_sort_key Py.tuple_le reactions.*1) as Ht.
  rewrite Hst in Ht. destruct Ht as [Hperm Hkeys].
  pose proof (sorted_wells _ _ Hst) as Hsorted.
  assert (Hrefl : ∀ t, t ∈ reactions.*1 → key_le t t).
  { intros t Ht. eapply Forall_forall in Hkeys as [k Hk]; [|exact Ht].
    exists k, k. split; [done|]. split; [done|]. apply tuple_le_refl. }
  assert (Hfirst : (target_range s).1 ∈ reactions.*1).
  { rewrite <- Hperm. destruct targets; [done|].
    injection Hhd as <-. left. }
  assert (Hend : (target_range s).2 ∈ reactions.*1).
  { rewrite <- Hperm. by apply last_Some_elem_of. }
  split; [done|]. split; [done|]. split.
  - intros t Ht. split.
    + destruct targets as [|first targets]; [done|].
      injection Hhd as Hhd. rewrite <- Hhd in *. rewrite <- Hperm in Ht.
      apply elem_of_cons in Ht as [->|Ht]; [by apply Hrefl|].
      apply StronglySorted_inv in Hsorted as [_ Hall].
      by eapply Forall_forall in Hall.
    + pose proof Ht as Ht'. rewrite <- Hperm in Ht'.
      destruct (StronglySorted_last _ _ _ Hsorted Hlast t Ht') as [->|?];
        [by apply Hrefl|done].
  - assert (Hwells : table_wells s = wells).
    { unfold table_wells. rewrite Htab, <- list_fmap_compose.
      rewrite <- (list_fmap_id wells) at 2. by apply list_fmap_ext. }
    rewrite Hwells. by eapply sorted_wells.
Qed.


Lemma print_summary_order_witness :
  ∃ s,
    print_summary [("B2", ["R"]); ("H1", ["R"]); ("a1", ["R"])]
      [("C2", "B2", half, "R"); ("A10", "H1", half, "R");
       ("b2", "a1", half, "R")]
      ten half = ok s
    ∧ (target_range s).1 ∈ [("B2", ["R"]); ("H1", ["R"]); ("a1", ["R"])].*1
    ∧ (target_range s).2 ∈ [("B2", ["R"]); ("H1", ["R"]); ("a1", ["R"])].*1
    ∧ (∀ t, t ∈ [("B2", ["R"]); ("H1", ["R"]); ("a1", ["R"])].*1 →
            key_le (target_range s).1 t ∧ key_le t (target_range s).2)
    ∧ StronglySorted key_le (table_wells s).
Proof.
  eexists. split; [vm_compute; reflexivity|].
  apply (print_summary_order _ [("C2", "B2", half, "R");
                                ("A10", "H1", half, "R");
                                ("b2", "a1", half, "R")] ten half).
  vm_compute. reflexivity.
Defined.

(** ** Path of the summary file *)

Lemma append_cons (a : ascii) (s t : string) :
  (String a s ++ t)%string = String a (s ++ t)%string.
Proof. reflexivity. Qed.

Lemma append_nil_r (s : string) : (s ++ EmptyString)%string = s.
Proof. induction s as [|a s IH]; [done|]. by rewrite append_cons, IH. Qed.

Lemma str_take_drop (n : nat) (s : string) :
  (str_take n s ++ str_drop n s)%string = s.
Proof.
  revert s. induction n as [|n IH]; intros [|a s]; simpl; [done..|].
  by rewrite append_cons, IH.
Qed.

Lemma str_drop_get (n : nat) (s : string) (c : ascii) :
  String.get n s = Some c → ∃ t, str_drop n s = String c t.
Proof.
  revert s. induction n as [|n IH]; intros [|a s]; simpl; try done.
  - intros [= ->]. by exists s.
  - apply IH.
Qed.

Lemma rfind_from_spec (s : string) (i found : Z) (c : ascii) :
  rfind_from i found c s = found
  ∨ (i ≤ rfind_from i found c s
     ∧ String.get (Z.to_nat (rfind_from i found c s - i)) s = Some c).
Proof.
  revert i found. induction s as [|a s IH]; intros i found; simpl; [by left|].
  destruct (IH (i + 1) (if Ascii.eqb a c then i else found)) as [Hr|[Hle Hget]].
  - rewrite Hr. destruct (Ascii.eqb_spec a c) as [->|_]; [|by left].
    right. split; [lia|]. by rewrite Z.sub_diag.
  - right. split; [lia|].
    replace (Z.to_nat (rfind_from (i + 1) (if Ascii.eqb a c then i else found)
                         c s - i))
      with (S (Z.to_nat (rfind_from (i + 1)
                           (if Ascii.eqb a c then i else found) c s
                         - (i + 1)))) by lia.
    done.
Qed.

Lemma rfind_get (s : string) (c : ascii) :
  0 ≤ rfind s c → String.get (Z.to_nat (rfind s c)) s = Some c.
Proof.
  unfold rfind. intros Hpos.
  destruct (rfind_from_spec s 0 (-1) c) as [Hr|[_ Hget]]; [lia|].
  by rewrite Z.sub_0_r in Hget.
Qed.

Lemma splitext_spec (sep : ascii) (altsep : option ascii) (p : string) :
  ((splitext sep altsep p).1 ++ (splitext sep altsep p).2)%string = p
  ∧ ((splitext sep altsep p).2 = EmptyString
     ∨ ∃ t, (splitext sep altsep p).2 = String "." t).
Proof.
  unfold splitext.
  set (sepIndex := match altsep with
                   | Some a => Z.max (rfind p sep) (rfind p a)
                   | None => rfind p sep
                   end).
  assert (Hsep : -1 ≤ sepIndex).
  { assert (∀ c, -1 ≤ rfind p c) as Hr.
    { intros c. unfold rfind.
      destruct (rfind_from_spec p 0 (-1) c) as [->|[? _]]; lia. }
    unfold sepIndex. destruct altsep; [pose proof (Hr sep); lia|apply Hr]. }
  destruct (Z.ltb_spec sepIndex (rfind p ".")) as [Hlt|_]; simpl.
  - destruct (name_before_dot _ _ _); simpl.
    + split; [apply str_take_drop|]. right.
      apply str_drop_get, rfind_get. lia.
    + split; [apply append_nil_r|by left].
  - split; [apply append_nil_r|by left].
Qed.

Lemma string_app_inv_head (s t u : string) :
  (s ++ t)%string = (s ++ u)%string → t = u.
Proof.
  induction s as [|a s IH]; [done|].
  rewrite !append_cons. intros [= H]. by apply IH.
Qed.

(** X22: the path [main] derives for the summary file is never the same
    string as the output path, whatever the output path is and with the
    [splitext] of either family of operating systems: when the replacement
    of "_idot.csv" leaves the path unchanged, the path without its
    extension followed by "_summary.csv" differs from it.  This compares
    the two strings, as the program does; two different strings may still
    name one file. *)
Theorem summary_path_differs (sep : ascii) (altsep : option ascii)
    (output_path : string) :
  summary_path sep altsep output_path ≠ output_path.
Proof.
  unfold summary_path.
  destruct (String.eqb_spec
              (str_replace "_idot.csv" "_summary.csv" output_path)
              output_path) as [_|Hne]; [|done].
  destruct (splitext_spec sep altsep output_path) as [Hcat Hext].
  intros Heq. rewrite <- Hcat in Heq at 2.
  apply string_app_inv_head in Heq.
  destruct Hext as [Hext|[t Hext]]; rewrite Hext in Heq; discriminate.
Qed.
